(** * playchip: the executable patcher, the dumper and the levelset header

    A shallow embedding of [playchip.py] (Python 2).  A Python 2 [str] is a
    sequence of bytes, so strings and file contents are both [list byte].
    Python integers are [Z].  A file opened in binary mode is its content
    together with the position of the handle; the functions of the program
    that take an open file become computations of the monad [M], which
    threads the file and stops at the first raised exception, keeping the
    file as it was left (the program patches the executable in place). *)

From Stdlib Require Import ZArith Lia ZifyBool List Bool.
From Stdlib Require Import Strings.Byte Strings.String.
From stdpp Require Import base option list strings gmap.

Local Open Scope Z_scope.

#[local] Arguments Z.to_nat : simpl never.

(** ** Bytes and strings *)

Definition str := list byte.

Definition Z_of_byte (b : byte) : Z := Z.of_N (Byte.to_N b).

Definition byte_of_Z (z : Z) : byte :=
  match Byte.of_N (Z.to_N (z mod 256)) with
  | Some b => b
  | None => x00
  end.

(** [len] is Python's [len] on a [str]. *)
Definition len (s : str) : Z := Z.of_nat (length s).

(** ** Exceptions *)

Inductive exn : Type :=
| StringTooLongError (s : str)
| ValueError (v : option Z)
| AssertionError
| struct_error
| InvalidExe
| NotALevelset.

(** ** Files *)

Record file : Type := File { content : list byte; position : Z }.

(** Writing [s] at index [p] of [d]: the bytes under [s] are replaced, the
    file grows when [s] runs past its end, and a gap left by a seek past the
    end is filled with zero bytes. *)
Definition overwrite (p : nat) (s d : list byte) : list byte :=
  take p d ++ replicate (p - length d) x00 ++ s ++ drop (p + length s) d.

Definition M (A : Type) : Type := file -> file * (exn + A).

Definition ret {A} (x : A) : M A := fun f => (f, inr x).

Definition bind {A B} (m : M A) (k : A -> M B) : M B :=
  fun f => match m f with
           | (f', inr x) => k x f'
           | (f', inl e) => (f', inl e)
           end.

Definition raise {A} (e : exn) : M A := fun f => (f, inl e).

#[export] Instance M_ret : MRet M := @ret.
#[export] Instance M_bind : MBind M := fun A B k m => bind m k.

Definition when (c : bool) (m : M unit) : M unit :=
  if c then m else mret tt.

(** [for x in xs: body] *)
Fixpoint for_ {A} (xs : list A) (body : A -> M unit) : M unit :=
  match xs with
  | [] => mret tt
  | x :: xs' => body x;; for_ xs' body
  end.

(** [[body x for x in xs]] *)
Fixpoint comprehension {A B} (xs : list A) (body : A -> M B) : M (list B) :=
  match xs with
  | [] => mret []
  | x :: xs' => y ← body x; ys ← comprehension xs' body; mret (y :: ys)
  end.

(** [open(path, mode)]: a fresh handle at the start of the file. *)
Definition open : M unit := fun f => (File (content f) 0, inr tt).

Definition seek (offset : Z) : M unit :=
  fun f => (File (content f) offset, inr tt).

Definition write (s : str) : M unit :=
  fun f => (File (overwrite (Z.to_nat (position f)) s (content f))
                 (position f + len s), inr tt).

(** [file.read(n)] returns at most [n] bytes, fewer at the end of the file. *)
Definition read (n : nat) : M str :=
  fun f => let s := take n (drop (Z.to_nat (position f)) (content f)) in
           (File (content f) (position f + len s), inr s).

(** ** [struct.pack] and [struct.unpack] for the formats "<h" and "<H" *)

Definition pack_h (value : Z) : exn + str :=
  if (-32768 <=? value) && (value <=? 32767) then
    let u := value mod 65536 in
    inr [byte_of_Z (u mod 256); byte_of_Z (u / 256)]
  else inl struct_error.

Definition unpack_H (s : str) : exn + Z :=
  match s with
  | [lo; hi] => inr (Z_of_byte lo + 256 * Z_of_byte hi)
  | _ => inl struct_error
  end.

Definition unpack_h (s : str) : exn + Z :=
  match unpack_H s with
  | inr u => inr (if u <? 32768 then u else u - 65536)
  | inl e => inl e
  end.

Definition lift {A} (r : exn + A) : M A :=
  match r with
  | inr x => mret x
  | inl e => raise e
  end.

(** ** Constants *)

Definition DEFAULT_DAT : str := list_byte_of_string "CHIPS.DAT".
Definition DEFAULT_INI : str := list_byte_of_string "./chip.ini".

Definition DAT_LENGTH : Z := len (list_byte_of_string "CHIPS.DAT").
Definition INI_LENGTH : Z := len (list_byte_of_string "entpack.ini").
Definition HEADING_LENGTH : Z := len (list_byte_of_string "Chip's Challenge").

Definition CHIPS_EXE_SIZE : Z := 267776.

Definition INI_OFFSET : Z := 0x4A68.
Definition HEADING_OFFSET : Z := 0x4A74.
Definition DAT_OFFSET : Z := 0x4AD4.

Definition ENDLEVEL_OFFSETS : list Z := [0x91c0; 0xba14; 0xbb1c].
Definition FAKEENDLEVEL_OFFSETS : list Z := [0x91b9; 0xbb14].
Definition CREDITSLEVEL_OFFSETS : list Z := [0x9f85; 0xa6d9].

Definition DECADE_OFFSET : Z := 0xbb2b.
(** [DECADE_VALUES = ('\xd1', '\xd2')]: off, on. *)
Definition DECADE_VALUES : str * str := ([xd1], [xd2]).

Definition SOUND_OFFSET : Z := 0x2f2f.

#[export] Instance byte_eq_dec : EqDecision byte := Byte.byte_eq_dec.

(** ** Writing *)

Definition writestring (value : str) (offset : Z) : M unit :=
  seek offset;;
  write value;;
  write [x00].

Definition writeword (value : Z) (offset : Z) : M unit :=
  value ← lift (pack_h value);
  seek offset;;
  write value.

(** [byte in DECADE_VALUES] *)
Definition in_DECADE_VALUES (byte : str) : bool :=
  bool_decide (byte = DECADE_VALUES.1) || bool_decide (byte = DECADE_VALUES.2).

Definition patchdecade (enable : bool) : M unit :=
  seek DECADE_OFFSET;;
  byte ← read 1;
  when (negb (in_DECADE_VALUES byte)) (raise AssertionError);;
  seek DECADE_OFFSET;;
  if enable then write DECADE_VALUES.2 else write DECADE_VALUES.1.

(** The keyword arguments of [patchexe]; [None] is Python's [None], the
    default of each of them. *)
Record PatchRequest : Type := {
  datfile : option str;
  inifile : option str;
  iniheading : option str;
  endlevel : option Z;
  fakeendlevel : option Z;
  creditslevel : option Z;
  decade : option bool;
  soundon : option bool
}.

(** Python 2 orders [None] below every number: [a <= b]. *)
Definition py_le (a b : option Z) : bool :=
  match a, b with
  | None, _ => true
  | Some _, None => false
  | Some x, Some y => x <=? y
  end.

(** [a == 0] and [a > 0] *)
Definition py_eq0 (a : option Z) : bool :=
  match a with Some x => x =? 0 | None => false end.

(** [if value is not None and not len(value) <= maxlen: raise ...] *)
Definition check_length (value : option str) (maxlen : Z) : M unit :=
  match value with
  | Some s => when (negb (len s <=? maxlen)) (raise (StringTooLongError s))
  | None => mret tt
  end.

(** [if value is not None: body(value)] *)
Definition if_set {A} (value : option A) (body : A -> M unit) : M unit :=
  match value with
  | Some v => body v
  | None => mret tt
  end.

(** [if value is None: value = other] *)
Definition if_None {A} (value other : option A) : option A :=
  match value with
  | None => other
  | Some _ => value
  end.

Definition patchexe (a : PatchRequest) : M unit :=
  let endlevel := endlevel a in
  let fakeendlevel := if_None (fakeendlevel a) endlevel in
  let creditslevel := if_None (creditslevel a) fakeendlevel in
  check_length (datfile a) DAT_LENGTH;;
  check_length (inifile a) INI_LENGTH;;
  check_length (iniheading a) HEADING_LENGTH;;
  when (negb (py_le (Some 1) endlevel && py_le endlevel (Some 999)))
       (raise (ValueError endlevel));;
  when (negb (py_le (Some 0) fakeendlevel && py_le fakeendlevel endlevel
              && py_le endlevel (Some 999)))
       (raise (ValueError fakeendlevel));;
  when (negb (py_eq0 creditslevel
              || (py_le (Some 1) fakeendlevel && py_le fakeendlevel creditslevel
                  && py_le creditslevel endlevel && py_le endlevel (Some 999))))
       (raise (ValueError creditslevel));;
  open;;
  if_set (datfile a) (fun datfile => writestring datfile DAT_OFFSET);;
  if_set (inifile a) (fun inifile => writestring inifile INI_OFFSET);;
  if_set (iniheading a) (fun iniheading => writestring iniheading HEADING_OFFSET);;
  if_set endlevel (fun endlevel =>
    for_ ENDLEVEL_OFFSETS (fun offset => writeword endlevel offset));;
  if_set fakeendlevel (fun fakeendlevel =>
    for_ FAKEENDLEVEL_OFFSETS (fun offset => writeword fakeendlevel offset));;
  if_set creditslevel (fun creditslevel =>
    for_ CREDITSLEVEL_OFFSETS (fun offset =>
      writeword creditslevel offset;;
      if creditslevel >? 0 then write [x7c] (* jl *)
      else write [x75] (* jnz *)));;
  if_set (decade a) (fun decade => patchdecade decade);;
  if_set (soundon a) (fun soundon =>
    seek SOUND_OFFSET;;
    write (if soundon then [x01] else [x00])).

(** ** Reading *)

(** The loop of [readstring]: it runs while [len(s) < maxlen] and every turn
    that does not break appends one character, so [fuel] is
    [maxlen - len(s)]. *)
Fixpoint readstring_loop (fuel : nat) (s : str) : M str :=
  match fuel with
  | O => mret s
  | S fuel' =>
      c ← read 1;
      if bool_decide (c = []) || bool_decide (c = [x00]) then mret s
      else readstring_loop fuel' (s ++ c)
  end.

Definition readstring (offset : Z) (maxlen : Z) : M str :=
  seek offset;;
  readstring_loop (Z.to_nat maxlen) [].

Definition readword (offset : Z) (signed : bool) : M Z :=
  seek offset;;
  s ← read 2;
  lift (if signed then unpack_h s else unpack_H s).

(** [readdecade] also prints [repr(c)]; standard output is not modelled. *)
Definition readdecade : M bool :=
  seek DECADE_OFFSET;;
  c ← read 1;
  mret (bool_decide (c = DECADE_VALUES.2)).

(** The values of the dictionary built by [readexe]. *)
Inductive value : Type :=
| VStr (s : str)
| VList (l : list Z)
| VBool (b : bool).

Definition readexe : M (gmap string value) :=
  let info : gmap string value := ∅ in
  open;;
  v ← readstring DAT_OFFSET DAT_LENGTH;
  let info := <["datfile" := VStr v]> info in
  v ← readstring INI_OFFSET INI_LENGTH;
  let info := <["inifile" := VStr v]> info in
  v ← readstring HEADING_OFFSET HEADING_LENGTH;
  let info := <["iniheading" := VStr v]> info in
  v ← comprehension ENDLEVEL_OFFSETS (fun offset => readword offset true);
  let info := <["endlevel" := VList v]> info in
  v ← comprehension FAKEENDLEVEL_OFFSETS (fun offset => readword offset true);
  let info := <["fakeendlevel" := VList v]> info in
  v ← comprehension CREDITSLEVEL_OFFSETS (fun offset => readword offset true);
  let info := <["creditslevel" := VList v]> info in
  v ← readdecade;
  let info := <["decade" := VBool v]> info in
  mret info.

(** [os.stat(exepath).st_size] is the length of the content. *)
Definition checkexe (exe : list byte) : exn + unit :=
  let size := len exe in
  if size <? CHIPS_EXE_SIZE then inl InvalidExe else inr tt.

(** ** The levelset header *)

Definition CHIPSSIG : str := [xac; xaa].

Record LevelsetInfo : Type := {
  sig : str;
  version : str;
  count : Z
}.

Definition checksig (sig : str) : M unit :=
  when (negb (bool_decide (sig = CHIPSSIG))) (raise NotALevelset).

Definition LevelsetInfo_init : M LevelsetInfo :=
  open;;
  sig ← read 2;
  version ← read 2;
  checksig sig;;
  s ← read 2;
  count ← lift (unpack_H s);
  mret {| sig := sig; version := version; count := count |}.

(** ** [playchip]: the arguments it derives for [patchexe] *)

(** [str.upper] on the ASCII letters. *)
Definition upper_byte (b : byte) : byte :=
  let n := Z_of_byte b in
  if (97 <=? n) && (n <=? 122) then byte_of_Z (n - 32) else b.

Definition upper (s : str) : str := map upper_byte s.

(** [playchip] up to its call of [patchexe]: [info] is the parsed header and
    [setname] the last component of the levelset's path.  Copying the
    levelset and starting the game are outside the model. *)
Definition playchip_request (info : LevelsetInfo) (setname : str) : PatchRequest :=
  let endlevel := count info in
  let fake := None in
  let credits := 0 in
  let fake := if endlevel =? 149 then Some 144 else fake in
  let credits :=
    if bool_decide (upper setname = list_byte_of_string "CHIPS.DAT")
    then 145 else credits in
  {| datfile := None;
     inifile := Some DEFAULT_INI;
     iniheading := Some (take (Z.to_nat HEADING_LENGTH) setname);
     endlevel := Some endlevel;
     fakeendlevel := fake;
     creditslevel := Some credits;
     decade := Some false;
     soundon := Some true |}.

(** Running a computation on a file that is on disk: the content after it
    and its outcome. *)
Definition run {A} (m : M A) (exe : list byte) : list byte * (exn + A) :=
  let '(f, r) := m (File exe 0) in (content f, r).

(** [main] with [-dump]: [checkexe] and then [readexe]. *)
Definition dump (exe : list byte) : exn + gmap string value :=
  match checkexe exe with
  | inl e => inl e
  | inr _ => (run readexe exe).2
  end.

(** * Properties *)

(** ** Bytes and words *)

Lemma Z_of_byte_range (b : byte) : 0 <= Z_of_byte b < 256.
Proof.
  unfold Z_of_byte. pose proof (Byte.to_N_bounded b) as Hb. lia.
Qed.

Lemma Z_of_byte_of_Z (z : Z) : Z_of_byte (byte_of_Z z) = z mod 256.
Proof.
  unfold Z_of_byte, byte_of_Z.
  pose proof (Z.mod_pos_bound z 256 ltac:(lia)) as Hz.
  destruct (Byte.of_N (Z.to_N (z mod 256))) as [b|] eqn:Hb.
  - apply Byte.to_of_N in Hb. rewrite Hb. lia.
  - apply Byte.of_N_None_iff in Hb. lia.
Qed.

Lemma byte_of_Z_of_byte (b : byte) : byte_of_Z (Z_of_byte b) = b.
Proof.
  unfold byte_of_Z. rewrite Z.mod_small by apply Z_of_byte_range.
  unfold Z_of_byte. rewrite N2Z.id, Byte.of_to_N. reflexivity.
Qed.

(** The two bytes of a word in range, and reading them back. *)
Definition word_bytes (v : Z) : str :=
  [byte_of_Z (v mod 256); byte_of_Z (v / 256)].

Lemma pack_h_small (v : Z) :
  0 <= v <= 32767 -> pack_h v = inr (word_bytes v).
Proof.
  intros Hv. unfold pack_h, word_bytes.
  replace (-32768 <=? v) with true by (symmetry; apply Z.leb_le; lia).
  replace (v <=? 32767) with true by (symmetry; apply Z.leb_le; lia).
  cbn [andb]. rewrite (Z.mod_small v 65536) by lia. reflexivity.
Qed.

(** The general round trip of the format "<h". *)
Lemma unpack_h_pack_h (v : Z) (s : str) :
  pack_h v = inr s -> unpack_h s = inr v /\ length s = 2%nat.
Proof.
  unfold pack_h. destruct (-32768 <=? v) eqn:Hlo; [|discriminate].
  destruct (v <=? 32767) eqn:Hhi; [|discriminate].
  cbn [andb]. intros [= <-]. split; [|reflexivity].
  apply Z.leb_le in Hlo, Hhi.
  unfold unpack_h, unpack_H. rewrite !Z_of_byte_of_Z, Z.mod_mod by lia.
  pose proof (Z.mod_pos_bound v 65536 ltac:(lia)) as Hu.
  set (u := v mod 65536) in *.
  assert (Hq : 0 <= u / 256 < 256).
  { split; [apply Z.div_pos; lia | apply Z.div_lt_upper_bound; lia]. }
  rewrite (Z.mod_small (u / 256)) by lia.
  pose proof (Z.div_mod u 256 ltac:(lia)) as Hd.
  replace (u mod 256 + 256 * (u / 256)) with u by lia.
  destruct (Z.ltb_spec u 32768) as [Hs|Hs]; f_equal.
  - destruct (Z.lt_ge_cases v 0) as [Hneg|Hpos].
    + exfalso. subst u.
      replace v with ((v + 65536) + (-1) * 65536) in Hs by lia.
      rewrite Z.mod_add, Z.mod_small in Hs by lia. lia.
    + subst u. rewrite Z.mod_small in * by lia. reflexivity.
  - destruct (Z.lt_ge_cases v 0) as [Hneg|Hpos].
    + subst u.
      replace v with ((v + 65536) + (-1) * 65536) at 1 by lia.
      rewrite Z.mod_add, Z.mod_small by lia. lia.
    + exfalso. subst u. rewrite Z.mod_small in Hs by lia. lia.
Qed.

Lemma unpack_h_word_bytes (v : Z) :
  0 <= v <= 32767 -> unpack_h (word_bytes v) = inr v.
Proof.
  intros Hv. apply unpack_h_pack_h, pack_h_small, Hv.
Qed.

(** ** Overwriting a region of a list *)

Section Overwrite.
Local Open Scope nat_scope.
Implicit Types (d s : list byte) (p i n : nat).

Lemma overwrite_length p s d :
  length (overwrite p s d) = max (length d) (p + length s).
Proof.
  unfold overwrite.
  rewrite !length_app, length_take, length_replicate, length_drop. lia.
Qed.

Lemma overwrite_lookup_in p s d i :
  p <= i < p + length s -> overwrite p s d !! i = s !! (i - p).
Proof.
  intros Hi. unfold overwrite.
  assert (Hp : length (take p d ++ replicate (p - length d) x00) = p).
  { rewrite length_app, length_take, length_replicate. lia. }
  rewrite app_assoc, lookup_app_r by lia.
  rewrite Hp. apply lookup_app_l. lia.
Qed.

Lemma overwrite_lookup_out p s d i :
  i < length d -> i < p \/ p + length s <= i ->
  overwrite p s d !! i = d !! i.
Proof.
  intros Hi [Hlt|Hge]; unfold overwrite.
  - rewrite lookup_app_l by (rewrite length_take; lia).
    apply lookup_take_lt; lia.
  - assert (Hp : length (take p d) = p) by (rewrite length_take; lia).
    replace (p - length d) with 0 by lia. cbn [replicate app].
    rewrite lookup_app_r by lia.
    rewrite lookup_app_r by lia.
    rewrite lookup_drop, Hp. f_equal. lia.
Qed.

(** Past the old end and outside [s]: the gap, filled with zeros. *)
Lemma overwrite_lookup_gap p s d i :
  length d <= i < p -> overwrite p s d !! i = Some x00.
Proof.
  intros Hi. unfold overwrite.
  rewrite lookup_app_r by (rewrite length_take; lia).
  rewrite length_take, lookup_app_l by (rewrite length_replicate; lia).
  apply lookup_replicate_2. lia.
Qed.
End Overwrite.

(** ** Sequences of writes *)

(** What a run of the patcher does to the content is a sequence of writes,
    each an offset and the bytes put there. *)
Definition apply_writes (ws : list (Z * str)) (d : list byte) : list byte :=
  foldl (fun d w => overwrite (Z.to_nat w.1) w.2 d) d ws.

(** The index [i] is not touched by the write [w] (whose offset is not
    negative, as all offsets of the program are). *)
Definition outside (i : Z) (w : Z * str) : Prop :=
  0 <= w.1 /\ (i < w.1 \/ w.1 + len w.2 <= i).

Lemma apply_writes_cons w ws d :
  apply_writes (w :: ws) d = apply_writes ws (overwrite (Z.to_nat w.1) w.2 d).
Proof. reflexivity. Qed.

Lemma apply_writes_app ws1 ws2 d :
  apply_writes (ws1 ++ ws2) d = apply_writes ws2 (apply_writes ws1 d).
Proof. unfold apply_writes. apply foldl_app. Qed.

Lemma apply_writes_length_ge ws d :
  (length d <= length (apply_writes ws d))%nat.
Proof.
  revert d. induction ws as [|w ws IH]; intros d.
  - cbn. lia.
  - rewrite apply_writes_cons. etransitivity; [|apply IH].
    rewrite overwrite_length. lia.
Qed.

Lemma apply_writes_length ws d :
  Forall (fun w => 0 <= w.1 /\ w.1 + len w.2 <= len d) ws ->
  length (apply_writes ws d) = length d.
Proof.
  revert d. induction ws as [|w ws IH]; intros d Hws; [reflexivity|].
  inversion Hws as [|? ? [Hw0 Hw] Hws']; subst.
  rewrite apply_writes_cons.
  assert (Hl : length (overwrite (Z.to_nat w.1) w.2 d) = length d).
  { rewrite overwrite_length. unfold len in Hw. lia. }
  rewrite IH, Hl; [reflexivity|].
  eapply Forall_impl; [exact Hws'|]. unfold len. rewrite Hl. tauto.
Qed.

Lemma apply_writes_lookup_out ws d i :
  0 <= i < len d -> Forall (outside i) ws ->
  apply_writes ws d !! Z.to_nat i = d !! Z.to_nat i.
Proof.
  revert d. induction ws as [|w ws IH]; intros d Hi Hws; [reflexivity|].
  inversion Hws as [|? ? Hw Hws']; subst.
  rewrite apply_writes_cons.
  unfold len in Hi.
  rewrite IH; [|unfold len; rewrite overwrite_length; lia|exact Hws'].
  apply overwrite_lookup_out; [lia|].
  unfold outside, len in Hw. lia.
Qed.

Lemma apply_writes_lookup_in ws1 p s ws2 d i :
  0 <= p -> p <= i < p + len s -> Forall (outside i) ws2 ->
  apply_writes (ws1 ++ (p, s) :: ws2) d !! Z.to_nat i = s !! Z.to_nat (i - p).
Proof.
  intros Hp Hi Hws. unfold len in Hi.
  rewrite apply_writes_app, apply_writes_cons.
  rewrite apply_writes_lookup_out; [| |exact Hws].
  - cbn [fst snd]. rewrite overwrite_lookup_in by lia. f_equal. lia.
  - unfold len. rewrite overwrite_length. cbn [fst snd]. lia.
Qed.

(** ** Running the monad *)

(** [outcome m f ws r]: from the file [f], the computation [m] makes the
    writes [ws] and ends with [r], normally or with an exception. *)
Definition outcome (m : M unit) (f : file) (ws : list (Z * str))
    (r : exn + unit) : Prop :=
  exists pos, m f = (File (apply_writes ws (content f)) pos, r).

Abbreviation exec m f ws := (outcome m f ws (inr tt)).

Lemma exec_ret f : exec (mret tt) f [].
Proof. exists (position f). destruct f; reflexivity. Qed.

Lemma outcome_bind (m k : M unit) f ws1 ws2 r :
  exec m f ws1 ->
  (forall pos, outcome k (File (apply_writes ws1 (content f)) pos) ws2 r) ->
  outcome (m;; k) f (ws1 ++ ws2) r.
Proof.
  intros [pos Hm] Hk. destruct (Hk pos) as [pos' Hk'].
  exists pos'. unfold mbind, M_bind, bind. rewrite Hm, Hk'.
  cbn [content]. rewrite apply_writes_app. reflexivity.
Qed.

Lemma outcome_raise (m k : M unit) f ws e :
  outcome m f ws (inl e) -> outcome (m;; k) f ws (inl e).
Proof.
  intros [pos Hm]. exists pos. unfold mbind, M_bind, bind. rewrite Hm.
  reflexivity.
Qed.

Lemma outcome_open (k : M unit) f ws r :
  outcome k (File (content f) 0) ws r -> outcome (open;; k) f ws r.
Proof. intros [pos Hk]. exists pos. exact Hk. Qed.

Lemma exec_seek_write offset s f :
  exec (seek offset;; write s) f [(offset, s)].
Proof. eexists. reflexivity. Qed.

Lemma exec_writestring value offset f :
  exec (writestring value offset) f [(offset, value); (offset + len value, [x00])].
Proof. eexists. reflexivity. Qed.

Lemma exec_writeword value offset f :
  0 <= value <= 32767 ->
  exec (writeword value offset) f [(offset, word_bytes value)].
Proof.
  intros Hv. unfold writeword. rewrite (pack_h_small _ Hv).
  eexists. reflexivity.
Qed.

Lemma exec_for {A} (xs : list A) (body : A -> M unit) (g : A -> list (Z * str)) f :
  (forall x f', exec (body x) f' (g x)) ->
  exec (for_ xs body) f (flat_map g xs).
Proof.
  intros Hbody. revert f. induction xs as [|x xs IH]; intros f.
  - apply exec_ret.
  - cbn [for_ flat_map]. apply outcome_bind; [apply Hbody|]. intros pos. apply IH.
Qed.

Lemma exec_if_set {A} (v : option A) (body : A -> M unit) (g : A -> list (Z * str)) f :
  (forall x, v = Some x -> exec (body x) f (g x)) ->
  exec (if_set v body) f (from_option g [] v).
Proof.
  intros Hbody. destruct v as [x|]; cbn [if_set from_option].
  - apply Hbody. reflexivity.
  - apply exec_ret.
Qed.

(** ** The checks of [patchexe], and its writes *)

(** The outcome of one length check. *)
Definition too_long (v : option str) (maxlen : Z) : option exn :=
  match v with
  | Some s => if len s <=? maxlen then None else Some (StringTooLongError s)
  | None => None
  end.

(** The exception raised by the three checks on the levels, if any. *)
Definition level_check (e f c : option Z) : option exn :=
  if negb (py_le (Some 1) e && py_le e (Some 999)) then Some (ValueError e)
  else if negb (py_le (Some 0) f && py_le f e && py_le e (Some 999))
  then Some (ValueError f)
  else if negb (py_eq0 c || (py_le (Some 1) f && py_le f c && py_le c e
                             && py_le e (Some 999)))
  then Some (ValueError c)
  else None.

(** The exception raised by the checks that [patchexe] makes before it
    opens the file, if any. *)
Definition patchexe_check (a : PatchRequest) : option exn :=
  let e := endlevel a in
  let f := if_None (fakeendlevel a) e in
  let c := if_None (creditslevel a) f in
  match too_long (datfile a) DAT_LENGTH with Some x => Some x | None =>
  match too_long (inifile a) INI_LENGTH with Some x => Some x | None =>
  match too_long (iniheading a) HEADING_LENGTH with Some x => Some x | None =>
  level_check e f c
  end end end.

(** The part of [patchexe] under [with open(...)]. *)
Definition patchexe_body (a : PatchRequest) : M unit :=
  let endlevel := endlevel a in
  let fakeendlevel := if_None (fakeendlevel a) endlevel in
  let creditslevel := if_None (creditslevel a) fakeendlevel in
  open;;
  if_set (datfile a) (fun datfile => writestring datfile DAT_OFFSET);;
  if_set (inifile a) (fun inifile => writestring inifile INI_OFFSET);;
  if_set (iniheading a) (fun iniheading => writestring iniheading HEADING_OFFSET);;
  if_set endlevel (fun endlevel =>
    for_ ENDLEVEL_OFFSETS (fun offset => writeword endlevel offset));;
  if_set fakeendlevel (fun fakeendlevel =>
    for_ FAKEENDLEVEL_OFFSETS (fun offset => writeword fakeendlevel offset));;
  if_set creditslevel (fun creditslevel =>
    for_ CREDITSLEVEL_OFFSETS (fun offset =>
      writeword creditslevel offset;;
      if creditslevel >? 0 then write [x7c] else write [x75]));;
  if_set (decade a) (fun decade => patchdecade decade);;
  if_set (soundon a) (fun soundon =>
    seek SOUND_OFFSET;;
    write (if soundon then [x01] else [x00])).

Lemma patchexe_spec (a : PatchRequest) (f : file) :
  patchexe a f = match patchexe_check a with
                 | Some e => (f, inl e)
                 | None => patchexe_body a f
                 end.
Proof.
  unfold patchexe, patchexe_check, level_check, patchexe_body, check_length,
    too_long.
  destruct (datfile a) as [s1|];
    [destruct (len s1 <=? DAT_LENGTH); [|reflexivity]|];
  (destruct (inifile a) as [s2|];
    [destruct (len s2 <=? INI_LENGTH); [|reflexivity]|]);
  (destruct (iniheading a) as [s3|];
    [destruct (len s3 <=? HEADING_LENGTH); [|reflexivity]|]);
  repeat match goal with
         | |- context [when (negb ?b)] => destruct b; [|reflexivity]
         end;
  reflexivity.
Qed.

Definition is_validation_error (e : exn) : bool :=
  match e with
  | StringTooLongError _ | ValueError _ => true
  | _ => false
  end.

Lemma too_long_kind (v : option str) (maxlen : Z) (e : exn) :
  too_long v maxlen = Some e -> is_validation_error e = true.
Proof.
  unfold too_long. destruct v as [s|]; [|discriminate].
  destruct (len s <=? maxlen); [discriminate|]. intros [= <-]. reflexivity.
Qed.

Lemma patchexe_check_kind (a : PatchRequest) (e : exn) :
  patchexe_check a = Some e -> is_validation_error e = true.
Proof.
  unfold patchexe_check, level_check.
  destruct (too_long (datfile a) _) eqn:H1;
    [intros [= <-]; eapply too_long_kind, H1|].
  destruct (too_long (inifile a) _) eqn:H2;
    [intros [= <-]; eapply too_long_kind, H2|].
  destruct (too_long (iniheading a) _) eqn:H3;
    [intros [= <-]; eapply too_long_kind, H3|].
  repeat match goal with
         | |- context [if negb ?b then _ else _] => destruct b; cbn [negb]
         end; intros [= <-]; reflexivity.
Qed.

(** The writes of a string, of the words of a level and of the flags. *)
Definition string_writes (offset : Z) (s : str) : list (Z * str) :=
  [(offset, s); (offset + len s, [x00])].

Definition word_writes (offsets : list Z) (v : Z) : list (Z * str) :=
  flat_map (fun o => [(o, word_bytes v)]) offsets.

Definition credits_writes (v : Z) : list (Z * str) :=
  flat_map (fun o => [(o, word_bytes v); (o + 2, [if v >? 0 then x7c else x75])])
           CREDITSLEVEL_OFFSETS.

Definition decade_writes (enable : bool) : list (Z * str) :=
  [(DECADE_OFFSET, [if enable then xd2 else xd1])].

Definition sound_writes (soundon : bool) : list (Z * str) :=
  [(SOUND_OFFSET, [if soundon then x01 else x00])].

(** The writes made before the legacy-message byte is looked at. *)
Definition first_writes (a : PatchRequest) (e f c : Z) : list (Z * str) :=
  from_option (string_writes DAT_OFFSET) [] (datfile a)
  ++ from_option (string_writes INI_OFFSET) [] (inifile a)
  ++ from_option (string_writes HEADING_OFFSET) [] (iniheading a)
  ++ word_writes ENDLEVEL_OFFSETS e
  ++ word_writes FAKEENDLEVEL_OFFSETS f
  ++ credits_writes c.

Definition last_writes (a : PatchRequest) : list (Z * str) :=
  from_option decade_writes [] (decade a)
  ++ from_option sound_writes [] (soundon a).

Definition patch_writes (a : PatchRequest) (e f c : Z) : list (Z * str) :=
  first_writes a e f c ++ last_writes a.

(** ** The constraints of a request *)

(** [valid a e f c]: the strings of [a] are within their lengths, and its
    levels, which after the defaults are [e], [f] and [c], are within their
    bounds. *)
Record valid (a : PatchRequest) (e f c : Z) : Prop := {
  valid_dat : forall s, datfile a = Some s -> len s <= DAT_LENGTH;
  valid_ini : forall s, inifile a = Some s -> len s <= INI_LENGTH;
  valid_heading : forall s, iniheading a = Some s -> len s <= HEADING_LENGTH;
  valid_end : endlevel a = Some e;
  valid_fake : if_None (fakeendlevel a) (endlevel a) = Some f;
  valid_credits :
    if_None (creditslevel a) (if_None (fakeendlevel a) (endlevel a)) = Some c;
  valid_end_range : 1 <= e <= 999;
  valid_fake_range : 0 <= f <= e;
  valid_credits_range : c = 0 \/ (1 <= f /\ f <= c /\ c <= e)
}.

Lemma too_long_None (v : option str) (maxlen : Z) :
  too_long v maxlen = None <-> (forall s, v = Some s -> len s <= maxlen).
Proof.
  unfold too_long. destruct v as [s|].
  - destruct (Z.leb_spec (len s) maxlen) as [Hle|Hgt]; split.
    + intros _ s' [= <-]. exact Hle.
    + reflexivity.
    + discriminate.
    + intros H. specialize (H s eq_refl). lia.
  - split; [intros _ s; discriminate | reflexivity].
Qed.

Lemma patchexe_check_None (a : PatchRequest) :
  patchexe_check a = None <-> exists e f c, valid a e f c.
Proof.
  unfold patchexe_check, level_check. split.
  - destruct (too_long (datfile a) _) eqn:H1; [discriminate|].
    destruct (too_long (inifile a) _) eqn:H2; [discriminate|].
    destruct (too_long (iniheading a) _) eqn:H3; [discriminate|].
    pose proof (proj1 (too_long_None _ _) H1) as H1'.
    pose proof (proj1 (too_long_None _ _) H2) as H2'.
    pose proof (proj1 (too_long_None _ _) H3) as H3'.
    destruct (endlevel a) as [e|] eqn:He; [|discriminate].
    destruct (if_None (fakeendlevel a) (Some e)) as [f|] eqn:Hf;
      [|destruct (fakeendlevel a); discriminate].
    destruct (if_None (creditslevel a) (Some f)) as [c|] eqn:Hc;
      [|destruct (creditslevel a); discriminate].
    unfold py_le, py_eq0.
    destruct (Z.leb_spec 1 e); [|discriminate].
    destruct (Z.leb_spec e 999); [|discriminate].
    destruct (Z.leb_spec 0 f); [|discriminate].
    destruct (Z.leb_spec f e); [|discriminate].
    cbn [andb negb].
    destruct (Z.eqb_spec c 0); cbn [orb negb].
    + intros _. exists e, f, c. split; rewrite ?He, ?Hf; auto; lia.
    + destruct (Z.leb_spec 1 f); [|discriminate].
      destruct (Z.leb_spec f c); [|discriminate].
      destruct (Z.leb_spec c e); [|discriminate].
      intros _. exists e, f, c. split; rewrite ?He, ?Hf; auto; lia.
  - intros (e & f & c & [H1 H2 H3 He Hf Hc Hre Hrf Hrc]).
    rewrite (proj2 (too_long_None _ _) H1), (proj2 (too_long_None _ _) H2),
      (proj2 (too_long_None _ _) H3).
    rewrite He in Hf, Hc |- *. rewrite Hf in Hc |- *. rewrite Hc.
    unfold py_le, py_eq0.
    replace (1 <=? e) with true by (symmetry; apply Z.leb_le; lia).
    replace (e <=? 999) with true by (symmetry; apply Z.leb_le; lia).
    replace (0 <=? f) with true by (symmetry; apply Z.leb_le; lia).
    replace (f <=? e) with true by (symmetry; apply Z.leb_le; lia).
    cbn [andb negb].
    destruct Hrc as [->|Hrc]; [reflexivity|].
    replace (1 <=? f) with true by (symmetry; apply Z.leb_le; lia).
    replace (f <=? c) with true by (symmetry; apply Z.leb_le; lia).
    replace (c <=? e) with true by (symmetry; apply Z.leb_le; lia).
    cbn [andb negb]. rewrite orb_true_r. reflexivity.
Qed.

(** ** Running [patchexe] *)

Lemma take_1_drop (d : list byte) (n : nat) :
  take 1 (drop n d) = match d !! n with Some b => [b] | None => [] end.
Proof.
  revert n. induction d as [|b d IH]; intros [|n]; try reflexivity.
  apply IH.
Qed.

(** The byte of the legacy-message toggle is one of the two known values. *)
Definition decade_known (d : list byte) : bool :=
  in_DECADE_VALUES (take 1 (drop (Z.to_nat DECADE_OFFSET) d)).

Lemma patchdecade_exec (enable : bool) (d : list byte) (pos : Z) :
  decade_known d = true ->
  exec (patchdecade enable) (File d pos) (decade_writes enable).
Proof.
  unfold decade_known. intros Hk. eexists.
  unfold patchdecade, mbind, M_bind, bind, seek, read.
  cbn [content position]. rewrite Hk. destruct enable; reflexivity.
Qed.

Lemma patchdecade_raise (enable : bool) (d : list byte) (pos : Z) :
  decade_known d = false ->
  outcome (patchdecade enable) (File d pos) [] (inl AssertionError).
Proof.
  unfold decade_known. intros Hk. eexists.
  unfold patchdecade, mbind, M_bind, bind, seek, read.
  cbn [content position]. rewrite Hk. reflexivity.
Qed.

Lemma exec_credits (c offset : Z) f :
  0 <= c <= 32767 ->
  exec (writeword c offset;; if c >? 0 then write [x7c] else write [x75]) f
       [(offset, word_bytes c); (offset + 2, [if c >? 0 then x7c else x75])].
Proof.
  intros Hc. unfold writeword. rewrite (pack_h_small _ Hc).
  destruct (c >? 0); eexists; reflexivity.
Qed.

(** The writes of [patchexe] up to the level words, followed by any [k]. *)
Lemma first_part_outcome (a : PatchRequest) (e f c : Z) (k : M unit) fl ws r :
  0 <= e <= 32767 -> 0 <= f <= 32767 -> 0 <= c <= 32767 ->
  (forall pos,
     outcome k (File (apply_writes (first_writes a e f c) (content fl)) pos) ws r) ->
  outcome
    (open;;
     if_set (datfile a) (fun datfile => writestring datfile DAT_OFFSET);;
     if_set (inifile a) (fun inifile => writestring inifile INI_OFFSET);;
     if_set (iniheading a) (fun iniheading => writestring iniheading HEADING_OFFSET);;
     if_set (Some e) (fun endlevel =>
       for_ ENDLEVEL_OFFSETS (fun offset => writeword endlevel offset));;
     if_set (Some f) (fun fakeendlevel =>
       for_ FAKEENDLEVEL_OFFSETS (fun offset => writeword fakeendlevel offset));;
     if_set (Some c) (fun creditslevel =>
       for_ CREDITSLEVEL_OFFSETS (fun offset =>
         writeword creditslevel offset;;
         if creditslevel >? 0 then write [x7c] else write [x75]));;
     k)
    fl (first_writes a e f c ++ ws) r.
Proof.
  intros He Hf Hc Hk. unfold first_writes. rewrite <- !app_assoc.
  apply outcome_open.
  apply outcome_bind;
    [apply exec_if_set; intros; apply exec_writestring|intros pos1].
  apply outcome_bind;
    [apply exec_if_set; intros; apply exec_writestring|intros pos2].
  apply outcome_bind;
    [apply exec_if_set; intros; apply exec_writestring|intros pos3].
  apply outcome_bind;
    [apply exec_for; intros; apply exec_writeword, He|intros pos4].
  apply outcome_bind;
    [apply exec_for; intros; apply exec_writeword, Hf|intros pos5].
  apply outcome_bind;
    [apply exec_for; intros; apply exec_credits, Hc|intros pos6].
  cbn [content]. rewrite <- !apply_writes_app.
  apply Hk.
Qed.

Lemma DAT_LENGTH_eq : DAT_LENGTH = 9.
Proof. reflexivity. Qed.

Lemma INI_LENGTH_eq : INI_LENGTH = 11.
Proof. reflexivity. Qed.

Lemma HEADING_LENGTH_eq : HEADING_LENGTH = 16.
Proof. reflexivity. Qed.

Lemma len_word_bytes (v : Z) : len (word_bytes v) = 2.
Proof. reflexivity. Qed.

(** Splits a [Forall] over the writes of a request into one goal for each
    write. *)
Ltac each_write :=
  repeat (apply Forall_app; split);
  cbn [from_option string_writes word_writes credits_writes decade_writes
       sound_writes flat_map app
       ENDLEVEL_OFFSETS FAKEENDLEVEL_OFFSETS CREDITSLEVEL_OFFSETS];
  repeat first [apply List.Forall_nil | apply List.Forall_cons].

(** All the writes before the legacy-message byte lie between the first
    string and the last level word. *)
Lemma first_writes_range (a : PatchRequest) (e f c : Z) :
  valid a e f c ->
  Forall (fun w => INI_OFFSET <= w.1 /\ w.1 + len w.2 <= 0xbb1e)
         (first_writes a e f c).
Proof.
  intros [H1 H2 H3 _ _ _ _ _ _]. unfold first_writes.
  rewrite DAT_LENGTH_eq in H1. rewrite INI_LENGTH_eq in H2.
  rewrite HEADING_LENGTH_eq in H3.
  destruct (datfile a) as [s1|]; [specialize (H1 s1 eq_refl)|clear H1];
  (destruct (inifile a) as [s2|]; [specialize (H2 s2 eq_refl)|clear H2]);
  (destruct (iniheading a) as [s3|]; [specialize (H3 s3 eq_refl)|clear H3]);
  each_write; cbn [fst snd]; rewrite ?len_word_bytes;
  unfold INI_OFFSET, DAT_OFFSET, HEADING_OFFSET, len in *; cbn [length]; lia.
Qed.

Lemma apply_writes_len_le (ws : list (Z * str)) (d : list byte) (n : Z) :
  Forall (fun w => 0 <= w.1 /\ w.1 + len w.2 <= n) ws ->
  len d <= n -> len (apply_writes ws d) <= n.
Proof.
  revert d. induction ws as [|w ws IH]; intros d Hws Hd; [exact Hd|].
  inversion Hws as [|? ? [Hw0 Hw] Hws']; subst.
  rewrite apply_writes_cons. apply IH; [exact Hws'|].
  unfold len in *. rewrite overwrite_length. lia.
Qed.

(** The writes before the legacy-message byte do not change what is read
    there, be it a byte or the end of the file. *)
Lemma decade_byte_first_writes (a : PatchRequest) (e f c : Z) (exe : list byte) :
  valid a e f c ->
  take 1 (drop (Z.to_nat DECADE_OFFSET) (apply_writes (first_writes a e f c) exe))
  = take 1 (drop (Z.to_nat DECADE_OFFSET) exe).
Proof.
  intros Hv. pose proof (first_writes_range a e f c Hv) as Hr.
  rewrite !take_1_drop.
  destruct (Z_lt_ge_dec DECADE_OFFSET (len exe)) as [Hlt|Hge].
  - rewrite apply_writes_lookup_out; [reflexivity|unfold DECADE_OFFSET in *; lia|].
    eapply Forall_impl; [exact Hr|]. unfold outside, INI_OFFSET, DECADE_OFFSET.
    intros w Hw. cbn beta in Hw. lia.
  - rewrite (lookup_ge_None_2 exe) by (unfold len in Hge; lia).
    rewrite lookup_ge_None_2; [reflexivity|].
    assert (len (apply_writes (first_writes a e f c) exe) <= DECADE_OFFSET).
    { apply apply_writes_len_le; [|lia].
      eapply Forall_impl; [exact Hr|]. unfold INI_OFFSET, DECADE_OFFSET.
      intros w Hw. cbn beta in Hw. lia. }
    unfold len in *. lia.
Qed.

Lemma decade_known_first_writes (a : PatchRequest) (e f c : Z) (exe : list byte) :
  valid a e f c ->
  decade_known (apply_writes (first_writes a e f c) exe) = decade_known exe.
Proof.
  intros Hv. unfold decade_known.
  rewrite (decade_byte_first_writes a e f c exe Hv). reflexivity.
Qed.

Lemma outcome_run (m : M unit) (exe : list byte) ws r :
  outcome m (File exe 0) ws r -> run m exe = (apply_writes ws exe, r).
Proof. intros [pos Hm]. unfold run. rewrite Hm. reflexivity. Qed.

(** What [patchexe] does with a request that passes its checks: all the
    writes, or, when the legacy-message flag is asked for and the byte found
    is not a known one, the writes before it and an [AssertionError]. *)
Lemma patchexe_run_valid (a : PatchRequest) (e f c : Z) (exe : list byte) :
  valid a e f c ->
  run (patchexe a) exe =
    if bool_decide (decade a = None) || decade_known exe
    then (apply_writes (patch_writes a e f c) exe, inr tt)
    else (apply_writes (first_writes a e f c) exe, inl AssertionError).
Proof.
  intros Hv.
  assert (Hcheck : patchexe_check a = None).
  { apply patchexe_check_None. eauto. }
  pose proof (decade_known_first_writes a e f c exe Hv) as Hknown.
  destruct Hv as [_ _ _ He Hf Hc Hre Hrf Hrc].
  unfold run. rewrite patchexe_spec, Hcheck. fold (run (patchexe_body a) exe).
  unfold patchexe_body. cbv zeta. rewrite Hc, Hf, He.
  destruct (decade a) as [enable|] eqn:Hd; cbn [bool_decide orb];
    [rewrite bool_decide_eq_false_2 by discriminate;
     destruct (decade_known exe) eqn:Hk; cbn [orb]
    |rewrite bool_decide_eq_true_2 by reflexivity; cbn [orb]];
    apply outcome_run.
  - unfold patch_writes, last_writes. rewrite Hd.
    apply first_part_outcome; try lia. intros pos. cbn [content if_set from_option].
    apply outcome_bind; [apply patchdecade_exec; congruence|intros pos'].
    apply exec_if_set. intros [] _; apply exec_seek_write.
  - rewrite <- (app_nil_r (first_writes a e f c)).
    apply first_part_outcome; try lia. intros pos. cbn [content if_set].
    apply outcome_raise, patchdecade_raise. congruence.
  - unfold patch_writes, last_writes. rewrite Hd.
    apply first_part_outcome; try lia. intros pos. cbn [content if_set from_option].
    apply (outcome_bind _ _ _ [] _); [apply exec_ret|intros pos'].
    apply exec_if_set. intros [] _; apply exec_seek_write.
Qed.

(** What it does with one that fails them: nothing but raise. *)
Lemma patchexe_run_invalid (a : PatchRequest) (x : exn) (exe : list byte) :
  patchexe_check a = Some x -> run (patchexe a) exe = (exe, inl x).
Proof. intros Hx. unfold run. rewrite patchexe_spec, Hx. reflexivity. Qed.

(** ** Reading *)

(** [returns m d x]: on a file of content [d], whatever the position, [m]
    returns [x] and leaves the content as it is. *)
Definition returns {A} (m : M A) (d : list byte) (x : A) : Prop :=
  forall pos, exists pos', m (File d pos) = (File d pos', inr x).

Lemma returns_bind {A B} (m : M A) (k : A -> M B) d x y :
  returns m d x -> returns (k x) d y -> returns (m ≫= k) d y.
Proof.
  intros Hm Hk pos. destruct (Hm pos) as [pos1 H1].
  destruct (Hk pos1) as [pos2 H2]. exists pos2.
  unfold mbind, M_bind, bind. rewrite H1. exact H2.
Qed.

Lemma returns_ret {A} (x : A) d : returns (mret x) d x.
Proof. intros pos. exists pos. reflexivity. Qed.

Lemma returns_open d : returns open d tt.
Proof. intros pos. exists 0. reflexivity. Qed.

Lemma returns_run {A} (m : M A) d x : returns m d x -> run m d = (d, inr x).
Proof. intros Hm. destruct (Hm 0) as [pos H]. unfold run. rewrite H. reflexivity. Qed.

(** The bytes of [l] up to a zero byte, the end of [l] or [n] of them,
    whichever comes first. *)
Fixpoint cstring (n : nat) (l : list byte) : str :=
  match n, l with
  | S n', b :: l' => if bool_decide (b = x00) then [] else b :: cstring n' l'
  | _, _ => []
  end.

Lemma readstring_loop_returns (fuel : nat) (acc : str) (d : list byte) (p : Z) :
  0 <= p ->
  exists pos', readstring_loop fuel acc (File d p)
               = (File d pos', inr (acc ++ cstring fuel (drop (Z.to_nat p) d))).
Proof.
  revert acc p. induction fuel as [|fuel IH]; intros acc p Hp.
  - exists p. cbn [readstring_loop cstring]. rewrite app_nil_r. reflexivity.
  - cbn [readstring_loop]. unfold mbind, M_bind, bind, read.
    cbn [content position].
    destruct (drop (Z.to_nat p) d) as [|b l] eqn:Hdrop.
    + eexists. cbn [firstn cstring]. rewrite app_nil_r. reflexivity.
    + cbn [firstn cstring]. rewrite ?take_0.
      assert (Hnext : drop (Z.to_nat (p + len [b])) d = l).
      { replace (Z.to_nat (p + len [b])) with (Z.to_nat p + 1)%nat
          by (unfold len; cbn [length]; lia).
        rewrite <- drop_drop, Hdrop. reflexivity. }
      rewrite (bool_decide_eq_false_2 ([b] = [])) by discriminate.
      cbn [orb]. destruct (decide (b = x00)) as [->|Hb].
      * eexists. rewrite !bool_decide_eq_true_2 by reflexivity.
        rewrite app_nil_r. reflexivity.
      * rewrite (bool_decide_eq_false_2 ([b] = [x00])) by congruence.
        rewrite (bool_decide_eq_false_2 (b = x00)) by exact Hb.
        destruct (IH (acc ++ [b]) (p + len [b])) as [pos' Hloop];
          [unfold len; lia|].
        exists pos'. rewrite Hloop, Hnext, <- app_assoc. reflexivity.
Qed.

Lemma readstring_returns (offset maxlen : Z) (d : list byte) :
  0 <= offset ->
  returns (readstring offset maxlen) d
          (cstring (Z.to_nat maxlen) (drop (Z.to_nat offset) d)).
Proof.
  intros Ho pos.
  destruct (readstring_loop_returns (Z.to_nat maxlen) [] d offset Ho) as [pos' H].
  exists pos'. exact H.
Qed.

(** The word read at [offset], when two bytes are there. *)
Definition word_at (d : list byte) (offset : Z) : exn + Z :=
  unpack_h (take 2 (drop (Z.to_nat offset) d)).

Lemma readword_returns (offset v : Z) (d : list byte) :
  word_at d offset = inr v -> returns (readword offset true) d v.
Proof.
  unfold word_at. intros Hv pos. eexists.
  unfold readword, mbind, M_bind, bind, seek, read. cbn [content position].
  rewrite Hv. reflexivity.
Qed.

Lemma comprehension_returns {A B} (xs : list A) (body : A -> M B) (ys : list B) d :
  Forall2 (fun x y => returns (body x) d y) xs ys ->
  returns (comprehension xs body) d ys.
Proof.
  induction 1 as [|x y xs ys Hx _ IH].
  - apply returns_ret.
  - cbn [comprehension].
    eapply returns_bind; [exact Hx|].
    eapply returns_bind; [exact IH|].
    apply returns_ret.
Qed.

Lemma readdecade_returns (d : list byte) :
  returns readdecade d
    (bool_decide (take 1 (drop (Z.to_nat DECADE_OFFSET) d) = DECADE_VALUES.2)).
Proof. intros pos. eexists. reflexivity. Qed.

(** The dictionary of [readexe] for given values of its entries. *)
Definition report (dat ini heading : str) (e f c : list Z) (dec : bool)
    : gmap string value :=
  <["decade" := VBool dec]>
  (<["creditslevel" := VList c]>
  (<["fakeendlevel" := VList f]>
  (<["endlevel" := VList e]>
  (<["iniheading" := VStr heading]>
  (<["inifile" := VStr ini]>
  (<["datfile" := VStr dat]> ∅)))))).

Lemma readexe_returns (d : list byte) (e f c : list Z) :
  Forall2 (fun o v => word_at d o = inr v) ENDLEVEL_OFFSETS e ->
  Forall2 (fun o v => word_at d o = inr v) FAKEENDLEVEL_OFFSETS f ->
  Forall2 (fun o v => word_at d o = inr v) CREDITSLEVEL_OFFSETS c ->
  returns readexe d
    (report (cstring (Z.to_nat DAT_LENGTH) (drop (Z.to_nat DAT_OFFSET) d))
            (cstring (Z.to_nat INI_LENGTH) (drop (Z.to_nat INI_OFFSET) d))
            (cstring (Z.to_nat HEADING_LENGTH) (drop (Z.to_nat HEADING_OFFSET) d))
            e f c
            (bool_decide (take 1 (drop (Z.to_nat DECADE_OFFSET) d) = DECADE_VALUES.2))).
Proof.
  intros He Hf Hc. unfold readexe, report.
  eapply returns_bind; [apply returns_open|].
  eapply returns_bind; [apply readstring_returns; unfold DAT_OFFSET; lia|].
  eapply returns_bind; [apply readstring_returns; unfold INI_OFFSET; lia|].
  eapply returns_bind; [apply readstring_returns; unfold HEADING_OFFSET; lia|].
  eapply returns_bind;
    [apply comprehension_returns; eapply Forall2_impl; [exact He|];
     intros; apply readword_returns; assumption|].
  eapply returns_bind;
    [apply comprehension_returns; eapply Forall2_impl; [exact Hf|];
     intros; apply readword_returns; assumption|].
  eapply returns_bind;
    [apply comprehension_returns; eapply Forall2_impl; [exact Hc|];
     intros; apply readword_returns; assumption|].
  eapply returns_bind; [apply readdecade_returns|].
  apply returns_ret.
Qed.

(** ** Reading back what was written *)

(** The last write that covers an index decides the byte there: when every
    write other than [(p, s)] leaves [i] alone, [i] holds its byte of [s]. *)
Lemma apply_writes_lookup_last (ws : list (Z * str)) p s (d : list byte) i :
  0 <= p -> p <= i < p + len s ->
  Forall (fun w => outside i w \/ w = (p, s)) ws ->
  d !! Z.to_nat i = s !! Z.to_nat (i - p) \/ In (p, s) ws ->
  apply_writes ws d !! Z.to_nat i = s !! Z.to_nat (i - p).
Proof.
  intros Hp Hi. unfold len in Hi.
  assert (Hhere : forall d', overwrite (Z.to_nat p) s d' !! Z.to_nat i
                             = s !! Z.to_nat (i - p)).
  { intros d'. rewrite overwrite_lookup_in by lia. f_equal. lia. }
  revert d. induction ws as [|w ws IH]; intros d Hws Hd.
  - destruct Hd as [Hd|[]]. exact Hd.
  - inversion Hws as [|? ? Hw Hws']; subst.
    rewrite apply_writes_cons. apply IH; [exact Hws'|].
    destruct Hw as [Hout| ->]; [|left; apply Hhere].
    destruct Hd as [Hd|[->|Hin]]; [|left; apply Hhere|right; exact Hin].
    left. rewrite <- Hd. apply overwrite_lookup_out.
    + apply lookup_lt_is_Some. rewrite Hd. apply lookup_lt_is_Some. lia.
    + destruct Hout as [Hw0 Hout]. unfold len in Hout. lia.
Qed.

Lemma apply_writes_segment (ws : list (Z * str)) p s (d : list byte) :
  0 <= p -> In (p, s) ws ->
  (forall i, p <= i < p + len s ->
             Forall (fun w => outside i w \/ w = (p, s)) ws) ->
  take (length s) (drop (Z.to_nat p) (apply_writes ws d)) = s.
Proof.
  intros Hp Hin Hws. apply list_eq. intros j.
  destruct (decide (j < length s)%nat) as [Hj|Hj].
  - rewrite lookup_take_lt, lookup_drop by exact Hj.
    replace (Z.to_nat p + j)%nat with (Z.to_nat (p + Z.of_nat j)) by lia.
    rewrite (apply_writes_lookup_last ws p s);
      [f_equal; lia|exact Hp|unfold len; lia|apply Hws; unfold len; lia|].
    right. exact Hin.
  - rewrite lookup_take_ge by lia. symmetry. apply lookup_ge_None_2. lia.
Qed.

Lemma cstring_written (n : nat) (s l : str) :
  x00 ∉ s -> (length s <= n)%nat ->
  take (length s) l = s ->
  length s = n \/ take 1 (drop (length s) l) = [x00] ->
  cstring n l = s.
Proof.
  revert n l. induction s as [|b s IH]; intros n l Hz Hn Hs Hend.
  - destruct n as [|n]; [reflexivity|].
    destruct Hend as [Hend|Hend]; [discriminate|].
    destruct l as [|b l]; [discriminate|].
    cbn in Hend. injection Hend as ->. reflexivity.
  - destruct n as [|n]; [cbn in Hn; lia|].
    destruct l as [|b' l]; [discriminate|].
    cbn [length take] in Hs. injection Hs as -> Hs.
    apply not_elem_of_cons in Hz as [Hb Hz].
    cbn [cstring]. rewrite bool_decide_eq_false_2 by congruence.
    f_equal. apply IH; [exact Hz|cbn in Hn; lia|exact Hs|].
    destruct Hend as [Hend|Hend]; [left; cbn in Hend; lia|right; exact Hend].
Qed.

(** A string in place with its terminator is what [readstring] reads. *)
Lemma cstring_in_place (maxlen offset : Z) (d : list byte) (s : str) :
  0 <= offset -> x00 ∉ s -> len s <= maxlen ->
  take (length s) (drop (Z.to_nat offset) d) = s ->
  take 1 (drop (Z.to_nat (offset + len s)) d) = [x00] ->
  cstring (Z.to_nat maxlen) (drop (Z.to_nat offset) d) = s.
Proof.
  intros Ho Hz Hlen Hs Hend. unfold len in *.
  apply cstring_written; [exact Hz|lia|exact Hs|].
  right. rewrite drop_drop.
  replace (Z.to_nat offset + length s)%nat
    with (Z.to_nat (offset + Z.of_nat (length s))) by lia.
  exact Hend.
Qed.

(** ** The writes of a request that passes the checks *)

(** One write against one index: it is the write looked for, or the index
    is outside it. *)
Ltac one_write :=
  first [ right; reflexivity
        | left; unfold outside; cbn [fst snd]; rewrite ?len_word_bytes;
          unfold len in *; cbn [length];
          unfold DAT_OFFSET, INI_OFFSET, HEADING_OFFSET, DECADE_OFFSET,
                 SOUND_OFFSET in *;
          lia ].

(** Splits a [Forall] over the writes of the request [a] into one goal for
    each write; a string that is set comes with the bound on its length. *)
Ltac request_writes a Hv :=
  unfold patch_writes, first_writes, last_writes;
  repeat (apply Forall_app; split);
  try match goal with
      | |- Forall _ (from_option _ _ (Some _)) => cbn [from_option]
      | |- Forall _ (from_option _ _ ?v) =>
          let E := fresh "E" in
          destruct v eqn:E; cbn [from_option]; [|apply List.Forall_nil];
          try (pose proof (valid_dat a _ _ _ Hv _ E) as Hlen;
               rewrite DAT_LENGTH_eq in Hlen);
          try (pose proof (valid_ini a _ _ _ Hv _ E) as Hlen;
               rewrite INI_LENGTH_eq in Hlen);
          try (pose proof (valid_heading a _ _ _ Hv _ E) as Hlen;
               rewrite HEADING_LENGTH_eq in Hlen);
          try match goal with Hp : _ = false |- _ => rewrite E in Hp end
      end;
  cbn [string_writes word_writes credits_writes decade_writes sound_writes
       flat_map app ENDLEVEL_OFFSETS FAKEENDLEVEL_OFFSETS CREDITSLEVEL_OFFSETS];
  repeat first [apply List.Forall_nil | apply List.Forall_cons].

Ltac search_or :=
  first [reflexivity | left; search_or | right; search_or].

(** Finds a write in the writes of a request. *)
Ltac find_write :=
  unfold patch_writes, first_writes, last_writes;
  cbn [from_option string_writes word_writes credits_writes decade_writes
       sound_writes flat_map app
       ENDLEVEL_OFFSETS FAKEENDLEVEL_OFFSETS CREDITSLEVEL_OFFSETS];
  rewrite ?in_app_iff; cbn [In];
  search_or.

Section Written.
Variables (a : PatchRequest) (e f c : Z) (exe : list byte).
Hypothesis Hv : valid a e f c.

(** The content after the writes, all of them or those made before an
    [AssertionError]. *)
Variable ws : list (Z * str).
Hypothesis Hws : ws = patch_writes a e f c \/ ws = first_writes a e f c.

Lemma written_endlevel (o : Z) :
  In o ENDLEVEL_OFFSETS ->
  take 2 (drop (Z.to_nat o) (apply_writes ws exe)) = word_bytes e.
Proof.
  intros Ho. cbn in Ho.
  apply (apply_writes_segment ws o (word_bytes e)); [lia| |].
  - destruct Ho as [<-|[<-|[<-|[]]]];
      (destruct Hws as [-> | ->]; find_write).
  - intros i Hi. rewrite len_word_bytes in Hi.
    destruct Ho as [<-|[<-|[<-|[]]]];
      (destruct Hws as [-> | ->]; request_writes a Hv; one_write).
Qed.

Lemma written_fakeendlevel (o : Z) :
  In o FAKEENDLEVEL_OFFSETS ->
  take 2 (drop (Z.to_nat o) (apply_writes ws exe)) = word_bytes f.
Proof.
  intros Ho. cbn in Ho.
  apply (apply_writes_segment ws o (word_bytes f)); [lia| |].
  - destruct Ho as [<-|[<-|[]]];
      (destruct Hws as [-> | ->]; find_write).
  - intros i Hi. rewrite len_word_bytes in Hi.
    destruct Ho as [<-|[<-|[]]];
      (destruct Hws as [-> | ->]; request_writes a Hv; one_write).
Qed.

Lemma written_creditslevel (o : Z) :
  In o CREDITSLEVEL_OFFSETS ->
  take 2 (drop (Z.to_nat o) (apply_writes ws exe)) = word_bytes c.
Proof.
  intros Ho. cbn in Ho.
  apply (apply_writes_segment ws o (word_bytes c)); [lia| |].
  - destruct Ho as [<-|[<-|[]]];
      (destruct Hws as [-> | ->]; find_write).
  - intros i Hi. rewrite len_word_bytes in Hi.
    destruct Ho as [<-|[<-|[]]];
      (destruct Hws as [-> | ->]; request_writes a Hv; one_write).
Qed.


(** A string that is set: its bytes and its terminator are in place. *)
Ltac written_string Hs Hl LENGTH_eq :=
  rewrite LENGTH_eq in Hl;
  first
    [ destruct Hws as [-> | ->]; unfold patch_writes, first_writes;
      rewrite Hs; find_write
    | intros i Hi;
      destruct Hws as [-> | ->]; unfold patch_writes, first_writes;
      rewrite Hs; request_writes a Hv; one_write
    | destruct Hws as [-> | ->]; unfold patch_writes, first_writes;
      rewrite Hs; request_writes a Hv; one_write ].

Lemma written_datfile (s : str) :
  datfile a = Some s ->
  take (length s) (drop (Z.to_nat DAT_OFFSET) (apply_writes ws exe)) = s
  /\ take 1 (drop (Z.to_nat (DAT_OFFSET + len s)) (apply_writes ws exe)) = [x00].
Proof.
  intros Hs. pose proof (valid_dat a _ _ _ Hv s Hs) as Hl.
  split.
  - apply apply_writes_segment; [unfold DAT_OFFSET; lia| |];
      written_string Hs Hl DAT_LENGTH_eq.
  - apply (apply_writes_segment ws (DAT_OFFSET + len s) [x00]);
      [unfold DAT_OFFSET, len; lia| |]; try change (len [x00]) with 1;
      written_string Hs Hl DAT_LENGTH_eq.
Qed.

Lemma written_inifile (s : str) :
  inifile a = Some s ->
  take (length s) (drop (Z.to_nat INI_OFFSET) (apply_writes ws exe)) = s
  /\ take 1 (drop (Z.to_nat (INI_OFFSET + len s)) (apply_writes ws exe)) = [x00].
Proof.
  intros Hs. pose proof (valid_ini a _ _ _ Hv s Hs) as Hl.
  split.
  - apply apply_writes_segment; [unfold INI_OFFSET; lia| |];
      written_string Hs Hl INI_LENGTH_eq.
  - apply (apply_writes_segment ws (INI_OFFSET + len s) [x00]);
      [unfold INI_OFFSET, len; lia| |]; try change (len [x00]) with 1;
      written_string Hs Hl INI_LENGTH_eq.
Qed.

Lemma written_iniheading (s : str) :
  iniheading a = Some s ->
  take (length s) (drop (Z.to_nat HEADING_OFFSET) (apply_writes ws exe)) = s
  /\ take 1 (drop (Z.to_nat (HEADING_OFFSET + len s)) (apply_writes ws exe))
     = [x00].
Proof.
  intros Hs. pose proof (valid_heading a _ _ _ Hv s Hs) as Hl.
  split.
  - apply apply_writes_segment; [unfold HEADING_OFFSET; lia| |];
      written_string Hs Hl HEADING_LENGTH_eq.
  - apply (apply_writes_segment ws (HEADING_OFFSET + len s) [x00]);
      [unfold HEADING_OFFSET, len; lia| |]; try change (len [x00]) with 1;
      written_string Hs Hl HEADING_LENGTH_eq.
Qed.
End Written.

(** The flags are written last, and only when the patch goes through. *)
Lemma written_decade (a : PatchRequest) (e f c : Z) (exe : list byte) (b : bool) :
  valid a e f c -> decade a = Some b ->
  take 1 (drop (Z.to_nat DECADE_OFFSET)
               (apply_writes (patch_writes a e f c) exe))
  = [if b then xd2 else xd1].
Proof.
  intros Hv Hb.
  apply (apply_writes_segment _ DECADE_OFFSET [if b then xd2 else xd1]);
    [unfold DECADE_OFFSET; lia| |].
  - unfold patch_writes, last_writes. rewrite Hb. find_write.
  - intros i Hi. change (len [_]) with 1 in Hi.
    unfold patch_writes, last_writes. rewrite Hb.
    request_writes a Hv; one_write.
Qed.

Lemma written_soundon (a : PatchRequest) (e f c : Z) (exe : list byte) (b : bool) :
  valid a e f c -> soundon a = Some b ->
  take 1 (drop (Z.to_nat SOUND_OFFSET)
               (apply_writes (patch_writes a e f c) exe))
  = [if b then x01 else x00].
Proof.
  intros Hv Hb.
  apply (apply_writes_segment _ SOUND_OFFSET [if b then x01 else x00]);
    [unfold SOUND_OFFSET; lia| |].
  - unfold patch_writes, last_writes. rewrite Hb. find_write.
  - intros i Hi. change (len [_]) with 1 in Hi.
    unfold patch_writes, last_writes. rewrite Hb.
    request_writes a Hv; one_write.
Qed.

(** ** The regions a request writes *)

(** The bytes of a string that is set and its terminating zero byte. *)
Definition in_string (v : option str) (offset i : Z) : bool :=
  match v with
  | Some s => (offset <=? i) && (i <=? offset + len s)
  | None => false
  end.

(** The [n] bytes at each of the offsets. *)
Definition in_words (offsets : list Z) (n i : Z) : bool :=
  existsb (fun o => (o <=? i) && (i <? o + n)) offsets.

(** The byte of a flag that is set. *)
Definition in_flag (v : option bool) (offset i : Z) : bool :=
  match v with
  | Some _ => i =? offset
  | None => false
  end.

(** The index [i] is in the region of a field that the request [a] sets,
    the levels being all set once the defaults are resolved: the strings
    with their terminators, the words of the three levels, the opcode byte
    after each word of the credits level, and the two flag bytes. *)
Definition patched (a : PatchRequest) (i : Z) : bool :=
  in_string (datfile a) DAT_OFFSET i
  || in_string (inifile a) INI_OFFSET i
  || in_string (iniheading a) HEADING_OFFSET i
  || in_words ENDLEVEL_OFFSETS 2 i
  || in_words FAKEENDLEVEL_OFFSETS 2 i
  || in_words CREDITSLEVEL_OFFSETS 2 i
  || in_words (map (fun o => o + 2) CREDITSLEVEL_OFFSETS) 1 i
  || in_flag (decade a) DECADE_OFFSET i
  || in_flag (soundon a) SOUND_OFFSET i.

Lemma not_patched_outside (a : PatchRequest) (e f c : Z) (i : Z) :
  valid a e f c -> patched a i = false ->
  Forall (outside i) (patch_writes a e f c).
Proof.
  intros Hv Hp. unfold patched, in_string, in_flag in Hp.
  request_writes a Hv;
    unfold outside; cbn [fst snd]; rewrite ?len_word_bytes;
    unfold len in *; cbn [length];
    cbn [in_words existsb map ENDLEVEL_OFFSETS FAKEENDLEVEL_OFFSETS
         CREDITSLEVEL_OFFSETS] in Hp;
    unfold DAT_OFFSET, INI_OFFSET, HEADING_OFFSET, DECADE_OFFSET,
           SOUND_OFFSET in *;
    lia.
Qed.

(** Whatever the outcome of a request that passes the checks, the content
    left is the old one with writes of the request applied. *)
Lemma patchexe_run_content (a : PatchRequest) (e f c : Z) (exe : list byte) :
  valid a e f c ->
  exists ws, (ws = patch_writes a e f c \/ ws = first_writes a e f c)
             /\ (run (patchexe a) exe).1 = apply_writes ws exe.
Proof.
  intros Hv. rewrite (patchexe_run_valid a e f c exe Hv).
  destruct (bool_decide (decade a = None) || decade_known exe); eauto.
Qed.

Lemma word_at_written (d : list byte) (o v : Z) :
  0 <= v <= 32767 ->
  take 2 (drop (Z.to_nat o) d) = word_bytes v -> word_at d o = inr v.
Proof.
  intros Hv Hd. unfold word_at. rewrite Hd. apply unpack_h_word_bytes, Hv.
Qed.

(** ** Sample inputs *)

(** Two images of the least size [checkexe] lets through: one of zero
    bytes, whose legacy-message byte is not a known one, and one whose every
    byte is the "off" value of that byte. *)
Definition blank_exe : list byte := replicate (Z.to_nat CHIPS_EXE_SIZE) x00.
Definition stock_exe : list byte := replicate (Z.to_nat CHIPS_EXE_SIZE) xd1.

Definition sample_request : PatchRequest :=
  {| datfile := Some (list_byte_of_string "A.DAT");
     inifile := None;
     iniheading := Some (list_byte_of_string "Levels");
     endlevel := Some 149;
     fakeendlevel := Some 144;
     creditslevel := Some 145;
     decade := Some true;
     soundon := Some true |}.

(** Only the end level is set. *)
Definition endlevel_request (n : Z) : PatchRequest :=
  {| datfile := None; inifile := None; iniheading := None;
     endlevel := Some n; fakeendlevel := None; creditslevel := None;
     decade := None; soundon := None |}.

(** Proves [valid] for a request given in full. *)
Ltac valid_request :=
  split;
  [ intros s Hs; first [discriminate Hs | injection Hs as <-; vm_compute; discriminate]
  | intros s Hs; first [discriminate Hs | injection Hs as <-; vm_compute; discriminate]
  | intros s Hs; first [discriminate Hs | injection Hs as <-; vm_compute; discriminate]
  | reflexivity | reflexivity | reflexivity | lia | lia | lia ].

Lemma sample_request_valid : valid sample_request 149 144 145.
Proof. valid_request. Qed.

Lemma endlevel_request_valid (n : Z) :
  1 <= n <= 999 -> valid (endlevel_request n) n n n.
Proof. intros Hn. valid_request. Qed.

(** * The claims *)

(** ** The bytes a patch leaves alone *)

Lemma patch_writes_range (a : PatchRequest) (e f c : Z) :
  valid a e f c ->
  Forall (fun w => SOUND_OFFSET <= w.1 /\ w.1 + len w.2 <= DECADE_OFFSET + 1)
         (patch_writes a e f c).
Proof.
  intros Hv.
  request_writes a Hv; cbn [fst snd]; rewrite ?len_word_bytes;
    unfold len in *; cbn [length];
    unfold DAT_OFFSET, INI_OFFSET, HEADING_OFFSET, DECADE_OFFSET,
           SOUND_OFFSET in *;
    lia.
Qed.

Lemma patch_writes_split (a : PatchRequest) (e f c : Z)
    (P : Z * str -> Prop) (ws : list (Z * str)) :
  ws = patch_writes a e f c \/ ws = first_writes a e f c ->
  Forall P (patch_writes a e f c) -> Forall P ws.
Proof.
  intros [-> | ->] HP; [exact HP|].
  unfold patch_writes in HP. apply Forall_app in HP. tauto.
Qed.

(** C10. For a request that passes the checks, every byte of the image
    outside the regions of the fields it sets (the strings with their
    terminating zero bytes, the two-byte words of the three levels, the
    opcode byte after each word of the credits level and the two flag bytes)
    is the same after [patchexe] as before, and an image of the size
    [checkexe] asks for keeps its length. *)
Theorem patch_frame (a : PatchRequest) (e f c : Z) (exe : list byte) :
  valid a e f c ->
  let exe' := (run (patchexe a) exe).1 in
  (forall i, 0 <= i < len exe -> patched a i = false ->
             exe' !! Z.to_nat i = exe !! Z.to_nat i)
  /\ (CHIPS_EXE_SIZE <= len exe -> length exe' = length exe).
Proof.
  intros Hv exe'.
  destruct (patchexe_run_content a e f c exe Hv) as (ws & Hws & Hrun).
  subst exe'. rewrite Hrun. split.
  - intros i Hi Hp. apply apply_writes_lookup_out; [exact Hi|].
    apply (patch_writes_split a e f c _ ws Hws).
    apply not_patched_outside; assumption.
  - intros Hsize. apply apply_writes_length.
    apply (patch_writes_split a e f c _ ws Hws).
    eapply Forall_impl; [apply patch_writes_range, Hv|].
    unfold SOUND_OFFSET, DECADE_OFFSET, CHIPS_EXE_SIZE in *.
    intros w Hw. cbn beta in Hw. lia.
Qed.

Lemma patch_frame_witness :
  valid sample_request 149 144 145
  /\ let exe' := (run (patchexe sample_request) stock_exe).1 in
     (forall i, 0 <= i < len stock_exe -> patched sample_request i = false ->
                exe' !! Z.to_nat i = stock_exe !! Z.to_nat i)
     /\ (CHIPS_EXE_SIZE <= len stock_exe -> length exe' = length stock_exe).
Proof.
  split; [exact sample_request_valid|].
  apply (patch_frame sample_request 149 144 145 stock_exe).
  exact sample_request_valid.
Defined.

(** ** Reading back a patched image *)

(** The requested values are in the report: the strings that are set, the
    three levels at each of their offsets, and the legacy-message flag when
    it is set. *)
Definition reads_back (a : PatchRequest) (e f c : Z)
    (info : gmap string value) : Prop :=
  (forall s, datfile a = Some s -> info !! "datfile" = Some (VStr s))
  /\ (forall s, inifile a = Some s -> info !! "inifile" = Some (VStr s))
  /\ (forall s, iniheading a = Some s -> info !! "iniheading" = Some (VStr s))
  /\ info !! "endlevel" = Some (VList [e; e; e])
  /\ info !! "fakeendlevel" = Some (VList [f; f])
  /\ info !! "creditslevel" = Some (VList [c; c])
  /\ (forall b, decade a = Some b -> info !! "decade" = Some (VBool b)).

(** No zero byte in a string that is set. *)
Definition no_zero (v : option str) : Prop :=
  forall s, v = Some s -> x00 ∉ s.

Lemma report_lookup (dat ini heading : str) (e f c : list Z) (dec : bool) :
  let r := report dat ini heading e f c dec in
  r !! "datfile" = Some (VStr dat)
  /\ r !! "inifile" = Some (VStr ini)
  /\ r !! "iniheading" = Some (VStr heading)
  /\ r !! "endlevel" = Some (VList e)
  /\ r !! "fakeendlevel" = Some (VList f)
  /\ r !! "creditslevel" = Some (VList c)
  /\ r !! "decade" = Some (VBool dec).
Proof.
  unfold report. repeat split;
    repeat (rewrite lookup_insert_ne by discriminate);
    apply lookup_insert_eq.
Qed.

Lemma checkexe_len (exe : list byte) :
  checkexe exe = inr tt <-> CHIPS_EXE_SIZE <= len exe.
Proof.
  unfold checkexe. destruct (Z.ltb_spec (len exe) CHIPS_EXE_SIZE); split;
    try discriminate; try reflexivity; lia.
Qed.

Lemma dump_report (d : list byte) (e f c : list Z) :
  checkexe d = inr tt ->
  Forall2 (fun o v => word_at d o = inr v) ENDLEVEL_OFFSETS e ->
  Forall2 (fun o v => word_at d o = inr v) FAKEENDLEVEL_OFFSETS f ->
  Forall2 (fun o v => word_at d o = inr v) CREDITSLEVEL_OFFSETS c ->
  dump d =
    inr (report (cstring (Z.to_nat DAT_LENGTH) (drop (Z.to_nat DAT_OFFSET) d))
                (cstring (Z.to_nat INI_LENGTH) (drop (Z.to_nat INI_OFFSET) d))
                (cstring (Z.to_nat HEADING_LENGTH)
                         (drop (Z.to_nat HEADING_OFFSET) d))
                e f c
                (bool_decide (take 1 (drop (Z.to_nat DECADE_OFFSET) d)
                              = DECADE_VALUES.2))).
Proof.
  intros Hsize He Hf Hc. unfold dump. rewrite Hsize.
  rewrite (returns_run _ _ _ (readexe_returns d e f c He Hf Hc)).
  reflexivity.
Qed.

(** C1, as the code has it.  A request that passes the checks and whose
    strings hold no zero byte, applied to an image that [checkexe] lets
    through and whose legacy-message byte is a known one when the request
    sets that flag: [patchexe] returns, and the dump of the patched image
    gives back the strings that were set, the three levels (after the
    defaults) at every one of their offsets, and the legacy-message flag
    when it was set.  The sound flag is not in the dump. *)
Theorem patch_then_dump (a : PatchRequest) (e f c : Z) (exe : list byte) :
  checkexe exe = inr tt ->
  valid a e f c ->
  no_zero (datfile a) -> no_zero (inifile a) -> no_zero (iniheading a) ->
  decade a = None \/ decade_known exe = true ->
  exists exe' info,
    run (patchexe a) exe = (exe', inr tt)
    /\ dump exe' = inr info
    /\ reads_back a e f c info.
Proof.
  intros Hsize Hv Hz1 Hz2 Hz3 Hd.
  set (ws := patch_writes a e f c).
  assert (Hws : ws = patch_writes a e f c \/ ws = first_writes a e f c)
    by (left; reflexivity).
  assert (He : 0 <= e <= 32767 /\ 0 <= f <= 32767 /\ 0 <= c <= 32767).
  { destruct Hv as [_ _ _ _ _ _ ? ? ?]. lia. }
  destruct He as (He & Hf & Hc).
  exists (apply_writes ws exe). eexists. split; [|split].
  - rewrite (patchexe_run_valid a e f c exe Hv).
    replace (bool_decide (decade a = None) || decade_known exe) with true;
      [reflexivity|].
    destruct Hd as [-> | ->]; [reflexivity|symmetry; apply orb_true_r].
  - apply (dump_report _ [e; e; e] [f; f] [c; c]).
    + apply checkexe_len. apply checkexe_len in Hsize.
      pose proof (apply_writes_length_ge ws exe). unfold len in *. lia.
    + repeat constructor; apply word_at_written; try exact He;
        apply (written_endlevel a e f c exe Hv ws Hws); cbn; auto.
    + repeat constructor; apply word_at_written; try exact Hf;
        apply (written_fakeendlevel a e f c exe Hv ws Hws); cbn; auto.
    + repeat constructor; apply word_at_written; try exact Hc;
        apply (written_creditslevel a e f c exe Hv ws Hws); cbn; auto.
  - destruct (report_lookup
                (cstring (Z.to_nat DAT_LENGTH)
                         (drop (Z.to_nat DAT_OFFSET) (apply_writes ws exe)))
                (cstring (Z.to_nat INI_LENGTH)
                         (drop (Z.to_nat INI_OFFSET) (apply_writes ws exe)))
                (cstring (Z.to_nat HEADING_LENGTH)
                         (drop (Z.to_nat HEADING_OFFSET) (apply_writes ws exe)))
                [e; e; e] [f; f] [c; c]
                (bool_decide (take 1 (drop (Z.to_nat DECADE_OFFSET)
                                           (apply_writes ws exe))
                              = DECADE_VALUES.2)))
      as (R1 & R2 & R3 & R4 & R5 & R6 & R7).
    unfold reads_back. rewrite R1, R2, R3, R4, R5, R6, R7.
    repeat split.
    + intros s Hs. do 2 f_equal.
      destruct (written_datfile a e f c exe Hv ws Hws s Hs) as [Hb Ht].
      apply cstring_in_place;
        [unfold DAT_OFFSET; lia|auto|apply (valid_dat a e f c Hv), Hs|exact Hb|exact Ht].
    + intros s Hs. do 2 f_equal.
      destruct (written_inifile a e f c exe Hv ws Hws s Hs) as [Hb Ht].
      apply cstring_in_place;
        [unfold INI_OFFSET; lia|auto|apply (valid_ini a e f c Hv), Hs|exact Hb|exact Ht].
    + intros s Hs. do 2 f_equal.
      destruct (written_iniheading a e f c exe Hv ws Hws s Hs) as [Hb Ht].
      apply cstring_in_place;
        [unfold HEADING_OFFSET; lia|auto|apply (valid_heading a e f c Hv), Hs|exact Hb|exact Ht].
    + intros b Hb. do 2 f_equal.
      subst ws. rewrite (written_decade a e f c exe b Hv Hb).
      destruct b; reflexivity.
Qed.

Lemma stock_exe_checked : checkexe stock_exe = inr tt.
Proof. vm_compute. reflexivity. Qed.

Lemma blank_exe_checked : checkexe blank_exe = inr tt.
Proof. vm_compute. reflexivity. Qed.

Lemma stock_exe_known : decade_known stock_exe = true.
Proof. vm_compute. reflexivity. Qed.

Lemma sample_request_no_zero :
  no_zero (datfile sample_request) /\ no_zero (inifile sample_request)
  /\ no_zero (iniheading sample_request).
Proof.
  repeat split; intros s Hs; try discriminate Hs; injection Hs as <-;
    apply (bool_decide_unpack _); vm_compute; exact I.
Qed.

Lemma patch_then_dump_witness :
  checkexe stock_exe = inr tt
  /\ valid sample_request 149 144 145
  /\ (decade sample_request = None \/ decade_known stock_exe = true)
  /\ exists exe' info,
       run (patchexe sample_request) stock_exe = (exe', inr tt)
       /\ dump exe' = inr info
       /\ reads_back sample_request 149 144 145 info.
Proof.
  split; [exact stock_exe_checked|].
  split; [exact sample_request_valid|].
  split; [right; exact stock_exe_known|].
  apply (patch_then_dump sample_request 149 144 145 stock_exe).
  - exact stock_exe_checked.
  - exact sample_request_valid.
  - apply sample_request_no_zero.
  - apply sample_request_no_zero.
  - apply sample_request_no_zero.
  - right. exact stock_exe_known.
Defined.

(** A data-file name with a zero byte in it, within the length allowed. *)
Definition nul_request : PatchRequest :=
  {| datfile := Some [x41; x00; x42]; inifile := None; iniheading := None;
     endlevel := Some 1; fakeendlevel := None; creditslevel := None;
     decade := None; soundon := None |}.

Definition sound_request (soundon : bool) : PatchRequest :=
  {| datfile := None; inifile := None; iniheading := None;
     endlevel := Some 1; fakeendlevel := None; creditslevel := None;
     decade := None; soundon := Some soundon |}.

(** C1 fails as stated.  The request [nul_request] passes the checks and
    the patch of an image of the right size returns, yet the dump gives the
    data-file name cut at its zero byte.  And two requests that differ in
    the sound flag alone leave images that differ in the sound byte and have
    the same dump: the dump does not give the sound flag back. *)
Lemma roundtrip_counterexample :
  (checkexe blank_exe = inr tt
   /\ valid nul_request 1 1 1
   /\ let exe' := (run (patchexe nul_request) blank_exe).1 in
      (run (patchexe nul_request) blank_exe).2 = inr tt
      /\ dump exe' = inr (report [x41] [] [] [1; 1; 1] [1; 1] [1; 1] false)
      /\ ~ reads_back nul_request 1 1 1
           (report [x41] [] [] [1; 1; 1] [1; 1] [1; 1] false))
  /\ (let on := (run (patchexe (sound_request true)) blank_exe).1 in
      let off := (run (patchexe (sound_request false)) blank_exe).1 in
      (run (patchexe (sound_request true)) blank_exe).2 = inr tt
      /\ (run (patchexe (sound_request false)) blank_exe).2 = inr tt
      /\ on !! Z.to_nat SOUND_OFFSET = Some x01
      /\ off !! Z.to_nat SOUND_OFFSET = Some x00
      /\ dump on = dump off).
Proof.
  split.
  - split; [exact blank_exe_checked|]. split; [valid_request|].
    cbv zeta. split; [vm_compute; reflexivity|].
    split; [vm_compute; reflexivity|].
    intros (H & _). specialize (H _ eq_refl). vm_compute in H. discriminate H.
  - cbv zeta. split; [|split; [|split; [|split]]]; vm_compute; reflexivity.
Qed.

(** ** Errors and the writes made before them *)

(** Only the legacy-message flag and the end level are set. *)
Definition decade_request (enable : bool) : PatchRequest :=
  {| datfile := None; inifile := None; iniheading := None;
     endlevel := Some 1; fakeendlevel := None; creditslevel := None;
     decade := Some enable; soundon := None |}.

(** C3 fails as stated.  On an image whose legacy-message byte is not a
    known one, a request that sets the flag ends in [AssertionError] after
    the level words have been written: the byte at 0x91C0 has changed. *)
Lemma assertion_after_writes :
  (run (patchexe (decade_request false)) blank_exe).2 = inl AssertionError
  /\ blank_exe !! Z.to_nat 0x91c0 = Some x00
  /\ (run (patchexe (decade_request false)) blank_exe).1 !! Z.to_nat 0x91c0
     = Some x01.
Proof. split; [|split]; vm_compute; reflexivity. Qed.

(** C3, as the code has it.  When [patchexe] raises, either the exception
    is one of its checks on lengths and levels, raised before the file is
    opened, and the image is as it was; or it is the [AssertionError] of
    [patchdecade]: the request passes the checks and sets the
    legacy-message flag, the byte found is not a known one, the strings and
    level words have been written by then, and the byte of the flag is as it
    was. *)
Theorem raise_and_writes (a : PatchRequest) (exe : list byte) (x : exn) :
  (run (patchexe a) exe).2 = inl x ->
  (is_validation_error x = true /\ (run (patchexe a) exe).1 = exe)
  \/ (x = AssertionError
      /\ decade a <> None /\ decade_known exe = false
      /\ exists e f c,
           valid a e f c
           /\ (run (patchexe a) exe).1
              = apply_writes (first_writes a e f c) exe
           /\ take 1 (drop (Z.to_nat DECADE_OFFSET) (run (patchexe a) exe).1)
              = take 1 (drop (Z.to_nat DECADE_OFFSET) exe)).
Proof.
  destruct (patchexe_check a) as [x0|] eqn:Hcheck.
  - rewrite (patchexe_run_invalid a x0 exe Hcheck). cbn [fst snd].
    intros [= <-]. left. split; [|reflexivity].
    apply (patchexe_check_kind a), Hcheck.
  - apply patchexe_check_None in Hcheck as (e & f & c & Hv).
    rewrite (patchexe_run_valid a e f c exe Hv).
    destruct (decade a) as [enable|] eqn:Hd;
      [rewrite bool_decide_eq_false_2 by discriminate
      |rewrite bool_decide_eq_true_2 by reflexivity];
      cbn [orb]; [|discriminate].
    destruct (decade_known exe) eqn:Hk; cbn [fst snd]; [discriminate|].
    intros [= <-]. right.
    split; [reflexivity|]. split; [discriminate|]. split; [reflexivity|].
    exists e, f, c. split; [exact Hv|]. split; [reflexivity|].
    apply decade_byte_first_writes, Hv.
Qed.

Lemma raise_and_writes_witness :
  (run (patchexe (decade_request false)) blank_exe).2 = inl AssertionError
  /\ ((is_validation_error AssertionError = true
       /\ (run (patchexe (decade_request false)) blank_exe).1 = blank_exe)
      \/ (AssertionError = AssertionError
          /\ decade (decade_request false) <> None
          /\ decade_known blank_exe = false
          /\ exists e f c,
               valid (decade_request false) e f c
               /\ (run (patchexe (decade_request false)) blank_exe).1
                  = apply_writes (first_writes (decade_request false) e f c)
                                 blank_exe
               /\ take 1 (drop (Z.to_nat DECADE_OFFSET)
                               (run (patchexe (decade_request false)) blank_exe).1)
                  = take 1 (drop (Z.to_nat DECADE_OFFSET) blank_exe))).
Proof.
  split; [vm_compute; reflexivity|].
  apply (raise_and_writes (decade_request false) blank_exe AssertionError).
  vm_compute. reflexivity.
Defined.

(** ** The length of the title heading *)

(** The request [a] with its title heading set to [s]. *)
Definition with_heading (a : PatchRequest) (s : str) : PatchRequest :=
  {| datfile := datfile a; inifile := inifile a; iniheading := Some s;
     endlevel := endlevel a; fakeendlevel := fakeendlevel a;
     creditslevel := creditslevel a; decade := decade a;
     soundon := soundon a |}.

Lemma valid_with_heading (a : PatchRequest) (e f c : Z) (s : str) :
  valid a e f c -> len s <= HEADING_LENGTH -> valid (with_heading a s) e f c.
Proof.
  intros [H1 H2 H3 He Hf Hc Hre Hrf Hrc] Hs.
  split; try assumption. intros s' [= <-]. exact Hs.
Qed.

Definition heading17 : str := list_byte_of_string "12345678901234567".

(** C4 fails as stated: a title heading of 17 characters is refused. *)
Lemma heading17_refused :
  len heading17 = 17
  /\ run (patchexe (with_heading (endlevel_request 1) heading17)) blank_exe
     = (blank_exe, inl (StringTooLongError heading17)).
Proof.
  split; [reflexivity|]. apply patchexe_run_invalid. reflexivity.
Qed.

(** C4, as the code has it: [HEADING_LENGTH] is the length of
    "Chip's Challenge", which is 16.  In a request that is otherwise within
    its constraints, a title heading of at most 16 characters passes the
    check and is written at its offset with its terminating zero byte
    (given a known legacy-message byte when that flag is set); a longer
    one, so one of 17 characters, raises [StringTooLongError] and leaves the
    image as it was. *)
Theorem heading_length_boundary (a : PatchRequest) (e f c : Z)
    (exe : list byte) (s : str) :
  valid a e f c ->
  decade a = None \/ decade_known exe = true ->
  HEADING_LENGTH = 16
  /\ (len s <= 16 ->
      exists exe',
        run (patchexe (with_heading a s)) exe = (exe', inr tt)
        /\ take (length s) (drop (Z.to_nat HEADING_OFFSET) exe') = s
        /\ take 1 (drop (Z.to_nat (HEADING_OFFSET + len s)) exe') = [x00])
  /\ (16 < len s ->
      run (patchexe (with_heading a s)) exe
      = (exe, inl (StringTooLongError s))).
Proof.
  intros Hv Hd. split; [reflexivity|]. split.
  - intros Hs.
    assert (Hv' : valid (with_heading a s) e f c).
    { apply valid_with_heading; [exact Hv|]. rewrite HEADING_LENGTH_eq. exact Hs. }
    exists (apply_writes (patch_writes (with_heading a s) e f c) exe).
    split.
    + rewrite (patchexe_run_valid _ e f c exe Hv').
      replace (bool_decide (decade (with_heading a s) = None) || decade_known exe)
        with true; [reflexivity|].
      cbn [decade with_heading].
      destruct Hd as [-> | ->]; [reflexivity|symmetry; apply orb_true_r].
    + apply (written_iniheading (with_heading a s) e f c exe Hv');
        [left; reflexivity|reflexivity].
  - intros Hs. apply patchexe_run_invalid.
    unfold patchexe_check. cbn [datfile inifile iniheading with_heading].
    rewrite (proj2 (too_long_None _ _) (valid_dat a e f c Hv)).
    rewrite (proj2 (too_long_None _ _) (valid_ini a e f c Hv)).
    unfold too_long. rewrite HEADING_LENGTH_eq.
    destruct (Z.leb_spec (len s) 16); [lia|reflexivity].
Qed.

Lemma heading_length_boundary_witness :
  valid (endlevel_request 1) 1 1 1
  /\ (decade (endlevel_request 1) = None \/ decade_known blank_exe = true)
  /\ len (take 16 heading17) = 16
  /\ (exists exe',
        run (patchexe (with_heading (endlevel_request 1) (take 16 heading17)))
            blank_exe = (exe', inr tt)
        /\ take (length (take 16 heading17))
                (drop (Z.to_nat HEADING_OFFSET) exe') = take 16 heading17
        /\ take 1 (drop (Z.to_nat (HEADING_OFFSET + len (take 16 heading17)))
                        exe') = [x00])
  /\ len heading17 = 17
  /\ run (patchexe (with_heading (endlevel_request 1) heading17)) blank_exe
     = (blank_exe, inl (StringTooLongError heading17)).
Proof.
  assert (Hv : valid (endlevel_request 1) 1 1 1)
    by (apply endlevel_request_valid; lia).
  split; [exact Hv|]. split; [left; reflexivity|].
  split; [reflexivity|]. split; [|split; [reflexivity|]].
  - apply (heading_length_boundary (endlevel_request 1) 1 1 1 blank_exe
             (take 16 heading17) Hv); [left; reflexivity|].
    vm_compute. discriminate.
  - apply (heading_length_boundary (endlevel_request 1) 1 1 1 blank_exe
             heading17 Hv); [left; reflexivity|].
    vm_compute. reflexivity.
Defined.

(** ** The checks on the levels *)

(** The strings of a request are within their lengths. *)
Definition strings_ok (a : PatchRequest) : Prop :=
  (forall s, datfile a = Some s -> len s <= DAT_LENGTH)
  /\ (forall s, inifile a = Some s -> len s <= INI_LENGTH)
  /\ (forall s, iniheading a = Some s -> len s <= HEADING_LENGTH).

(** [patchexe] refuses the request for its levels, whatever the image, and
    leaves the image as it was. *)
Definition rejects_levels (a : PatchRequest) : Prop :=
  forall exe, exists v, run (patchexe a) exe = (exe, inl (ValueError v)).

(** [patchexe] raises none of the exceptions of its checks. *)
Definition accepts (a : PatchRequest) : Prop :=
  forall exe x, (run (patchexe a) exe).2 = inl x -> is_validation_error x = false.

Lemma patchexe_check_levels (a : PatchRequest) :
  strings_ok a ->
  patchexe_check a
  = level_check (endlevel a) (if_None (fakeendlevel a) (endlevel a))
      (if_None (creditslevel a) (if_None (fakeendlevel a) (endlevel a))).
Proof.
  intros (H1 & H2 & H3). unfold patchexe_check.
  rewrite (proj2 (too_long_None _ _) H1), (proj2 (too_long_None _ _) H2),
    (proj2 (too_long_None _ _) H3).
  reflexivity.
Qed.

Lemma rejects_levels_check (a : PatchRequest) (v : option Z) :
  patchexe_check a = Some (ValueError v) -> rejects_levels a.
Proof.
  intros Hc exe. exists v. apply patchexe_run_invalid, Hc.
Qed.

Lemma accepts_check (a : PatchRequest) :
  accepts a <-> patchexe_check a = None.
Proof.
  split.
  - intros Ha. destruct (patchexe_check a) as [x|] eqn:Hc; [|reflexivity].
    specialize (Ha [] x). rewrite (patchexe_run_invalid a x [] Hc) in Ha.
    rewrite (patchexe_check_kind a x Hc) in Ha. discriminate (Ha eq_refl).
  - intros Hc exe x Hx.
    apply patchexe_check_None in Hc as (e & f & c & Hv).
    rewrite (patchexe_run_valid a e f c exe Hv) in Hx.
    destruct (bool_decide (decade a = None) || decade_known exe);
      cbn [snd] in Hx; [discriminate|].
    injection Hx as <-. reflexivity.
Qed.






(** ** The word and the opcode of the credits level *)






(** ** The header of a levelset *)

Lemma LevelsetInfo_init_eq (d : list byte) :
  LevelsetInfo_init (File d 0) =
  let sig := take 2 d in
  let version := take 2 (drop (Z.to_nat (0 + len sig)) d) in
  let p := 0 + len sig + len version in
  if bool_decide (sig = CHIPSSIG) then
    let s := take 2 (drop (Z.to_nat p) d) in
    match unpack_H s with
    | inr n => (File d (p + len s),
                inr {| sig := sig; version := version; count := n |})
    | inl e => (File d (p + len s), inl e)
    end
  else (File d p, inl NotALevelset).
Proof.
  unfold LevelsetInfo_init, mbind, M_bind, bind, open, read, checksig, when.
  cbn [content position]. change (Z.to_nat 0) with 0%nat. rewrite !drop_0.
  cbv zeta.
  destruct (decide (take 2 d = CHIPSSIG)) as [Hsig|Hsig].
  - rewrite !(bool_decide_eq_true_2 _ Hsig). cbn [negb].
    unfold mret, M_ret, ret, lift. cbn [content position].
    destruct (unpack_H _); reflexivity.
  - rewrite !(bool_decide_eq_false_2 _ Hsig). reflexivity.
Qed.

Lemma LevelsetInfo_init_header (b2 b3 b4 b5 : byte) (rest : list byte) :
  LevelsetInfo_init (File (xac :: xaa :: b2 :: b3 :: b4 :: b5 :: rest) 0)
  = (File (xac :: xaa :: b2 :: b3 :: b4 :: b5 :: rest) 6,
     inr {| sig := CHIPSSIG; version := [b2; b3];
            count := Z_of_byte b4 + 256 * Z_of_byte b5 |}).
Proof. rewrite LevelsetInfo_init_eq. reflexivity. Qed.

Lemma unpack_H_error (s : str) (e : exn) : unpack_H s = inl e -> e = struct_error.
Proof.
  unfold unpack_H. destruct s as [|? [|? [|? ?]]]; intros [= <-]; reflexivity.
Qed.

(** C6. The parser fails with [NotALevelset] exactly when the first two
    bytes are not the signature, and then at most four bytes have been read:
    the count has not.  On a file of six bytes or more that starts with the
    signature it reads six bytes and returns the count as the unsigned
    little-endian word at offset 4.  The bytes AC AA 01 00 95 00 give the
    count 149; every count up to 65535 and every version is let through. *)
Theorem levelset_header :
  (forall d,
     let r := LevelsetInfo_init (File d 0) in
     (r.2 = inl NotALevelset <-> take 2 d <> CHIPSSIG)
     /\ (r.2 = inl NotALevelset -> position r.1 <= 4)
     /\ (take 2 d = CHIPSSIG -> 6 <= len d ->
         exists lo hi,
           d !! 4%nat = Some lo /\ d !! 5%nat = Some hi
           /\ r = (File d 6,
                   inr {| sig := CHIPSSIG; version := take 2 (drop 2 d);
                          count := Z_of_byte lo + 256 * Z_of_byte hi |})
           /\ 0 <= Z_of_byte lo + 256 * Z_of_byte hi <= 65535))
  /\ (LevelsetInfo_init (File [xac; xaa; x01; x00; x95; x00] 0)).2
     = inr {| sig := [xac; xaa]; version := [x01; x00]; count := 149 |}
  /\ (forall (v1 v2 : byte) (n : Z),
        0 <= n <= 65535 ->
        (LevelsetInfo_init
           (File (CHIPSSIG ++ [v1; v2; byte_of_Z (n mod 256); byte_of_Z (n / 256)])
                 0)).2
        = inr {| sig := CHIPSSIG; version := [v1; v2]; count := n |}).
Proof.
  split; [|split].
  - intros d r. subst r. rewrite LevelsetInfo_init_eq. cbv zeta.
    split; [|split].
    + destruct (decide (take 2 d = CHIPSSIG)) as [Hsig|Hsig].
      * rewrite (bool_decide_eq_true_2 _ Hsig).
        split; [|intros H; contradiction].
        destruct (unpack_H _) as [e|n] eqn:Hu; cbn [snd]; [|discriminate].
        apply unpack_H_error in Hu. subst e. discriminate.
      * rewrite (bool_decide_eq_false_2 _ Hsig). cbn [snd]. tauto.
    + destruct (decide (take 2 d = CHIPSSIG)) as [Hsig|Hsig].
      * rewrite (bool_decide_eq_true_2 _ Hsig).
        destruct (unpack_H _) as [e|n] eqn:Hu; cbn [snd]; [|discriminate].
        apply unpack_H_error in Hu. subst e. discriminate.
      * rewrite (bool_decide_eq_false_2 _ Hsig). cbn [fst snd position].
        intros _. unfold len. rewrite !length_take. lia.
    + intros Hsig Hlen.
      destruct d as [|b0 [|b1 [|b2 [|b3 [|b4 [|b5 rest]]]]]];
        try (unfold len in Hlen; cbn [length] in Hlen; lia).
      cbv in Hsig. injection Hsig as -> ->. exists b4, b5.
      split; [reflexivity|]. split; [reflexivity|]. split; [reflexivity|].
      pose proof (Z_of_byte_range b4). pose proof (Z_of_byte_range b5). lia.
  - reflexivity.
  - intros v1 v2 n Hn. cbn [app CHIPSSIG].
    rewrite LevelsetInfo_init_header. cbn [snd]. do 2 f_equal.
    rewrite !Z_of_byte_of_Z, Z.mod_mod by lia.
    assert (0 <= n / 256 < 256)
      by (split; [apply Z.div_pos; lia|apply Z.div_lt_upper_bound; lia]).
    rewrite (Z.mod_small (n / 256)) by lia.
    pose proof (Z.div_mod n 256 ltac:(lia)). lia.
Qed.

Lemma levelset_header_witness :
  (take 2 [xac; xaa; x01; x00; x95; x00] = CHIPSSIG
   /\ 6 <= len [xac; xaa; x01; x00; x95; x00]
   /\ exists lo hi,
        LevelsetInfo_init (File [xac; xaa; x01; x00; x95; x00] 0)
        = (File [xac; xaa; x01; x00; x95; x00] 6,
           inr {| sig := CHIPSSIG;
                  version := take 2 (drop 2 [xac; xaa; x01; x00; x95; x00]);
                  count := Z_of_byte lo + 256 * Z_of_byte hi |})
        /\ Z_of_byte lo + 256 * Z_of_byte hi = 149)
  /\ (take 2 [xac; xab; x01; x00; x95; x00] <> CHIPSSIG
      /\ (LevelsetInfo_init (File [xac; xab; x01; x00; x95; x00] 0)).2
         = inl NotALevelset
      /\ position (LevelsetInfo_init (File [xac; xab; x01; x00; x95; x00] 0)).1
         <= 4)
  /\ (0 <= 65535 <= 65535
      /\ (LevelsetInfo_init
            (File (CHIPSSIG ++ [x07; x09; byte_of_Z (65535 mod 256);
                                byte_of_Z (65535 / 256)]) 0)).2
         = inr {| sig := CHIPSSIG; version := [x07; x09]; count := 65535 |}).
Proof.
  destruct levelset_header as (Hd & _ & Hn).
  split; [|split].
  - destruct (Hd [xac; xaa; x01; x00; x95; x00]) as (_ & _ & Hok).
    split; [reflexivity|]. split; [vm_compute; discriminate|].
    destruct (Hok eq_refl ltac:(vm_compute; discriminate))
      as (lo & hi & Hlo & Hhi & Hr & _).
    exists lo, hi. split; [exact Hr|].
    injection Hlo as <-. injection Hhi as <-. reflexivity.
  - destruct (Hd [xac; xab; x01; x00; x95; x00]) as (Hiff & Hpos & _).
    assert (Hsig : take 2 [xac; xab; x01; x00; x95; x00] <> CHIPSSIG)
      by discriminate.
    split; [exact Hsig|].
    split; [apply Hiff, Hsig|apply Hpos, Hiff, Hsig].
  - split; [lia|]. apply Hn. lia.
Defined.

(** ** The arguments [playchip] derives *)

(** The lower-case form of an ASCII letter. *)
Definition lower_byte (b : byte) : byte :=
  let n := Z_of_byte b in
  if (65 <=? n) && (n <=? 90) then byte_of_Z (n + 32) else b.

(** Equality of two names up to the case of their ASCII letters. *)
Definition eq_nocase (s t : str) : Prop :=
  map lower_byte s = map lower_byte t.

Lemma lower_upper_byte (b : byte) : lower_byte (upper_byte b) = lower_byte b.
Proof. destruct b; reflexivity. Qed.

Lemma upper_lower_byte (b : byte) : upper_byte (lower_byte b) = upper_byte b.
Proof. destruct b; reflexivity. Qed.

Lemma upper_eq_nocase (s t : str) :
  upper t = t -> (upper s = t <-> eq_nocase s t).
Proof.
  intros Ht. unfold eq_nocase, upper in *. split; intros H.
  - rewrite <- H, map_map. apply map_ext. intros b.
    symmetry. apply lower_upper_byte.
  - rewrite <- Ht. apply (f_equal (map upper_byte)) in H.
    rewrite !map_map in H.
    rewrite (map_ext _ upper_byte upper_lower_byte) in H.
    rewrite (map_ext _ upper_byte upper_lower_byte) in H. exact H.
Qed.

Definition header149 : LevelsetInfo :=
  {| sig := CHIPSSIG; version := [x01; x00]; count := 149 |}.

(** C8. The request [playchip] derives is a function of the count of the
    header and of the name of the levelset: the end level is the count; the
    fake end level is 144 when the count is 149 and unset otherwise; the
    credits level is 145 when the name is CHIPS.DAT up to case and 0
    otherwise.  A header of 149 levels named CHIPS.DAT gives 149, 144 and
    145, and the same header named CUSTOM.DAT gives the credits level 0. *)
Theorem derived_request :
  (forall (info : LevelsetInfo) (setname : str),
     let r := playchip_request info setname in
     endlevel r = Some (count info)
     /\ (count info = 149 -> fakeendlevel r = Some 144)
     /\ (count info <> 149 -> fakeendlevel r = None)
     /\ (eq_nocase setname (list_byte_of_string "CHIPS.DAT") ->
         creditslevel r = Some 145)
     /\ (~ eq_nocase setname (list_byte_of_string "CHIPS.DAT") ->
         creditslevel r = Some 0)
     /\ (forall info', count info' = count info ->
                       playchip_request info' setname = r))
  /\ (let r := playchip_request header149 (list_byte_of_string "CHIPS.DAT") in
      (endlevel r, fakeendlevel r, creditslevel r)
      = (Some 149, Some 144, Some 145))
  /\ creditslevel (playchip_request header149 (list_byte_of_string "CUSTOM.DAT"))
     = Some 0.
Proof.
  split; [|split; reflexivity].
  intros info setname r. subst r. unfold playchip_request. cbn [endlevel fakeendlevel creditslevel].
  pose proof (upper_eq_nocase setname (list_byte_of_string "CHIPS.DAT") eq_refl)
    as Hcase.
  split; [reflexivity|]. split; [|split; [|split; [|split]]].
  - intros ->. reflexivity.
  - intros Hn. destruct (Z.eqb_spec (count info) 149); [contradiction|reflexivity].
  - intros Heq. rewrite bool_decide_eq_true_2 by (apply Hcase, Heq). reflexivity.
  - intros Hne. rewrite bool_decide_eq_false_2; [reflexivity|].
    intros Hu. apply Hne, Hcase, Hu.
  - intros info' ->. reflexivity.
Qed.

Lemma derived_request_witness :
  count header149 = 149
  /\ eq_nocase (list_byte_of_string "chips.dat") (list_byte_of_string "CHIPS.DAT")
  /\ ~ eq_nocase (list_byte_of_string "CUSTOM.DAT") (list_byte_of_string "CHIPS.DAT")
  /\ fakeendlevel (playchip_request header149 (list_byte_of_string "chips.dat"))
     = Some 144
  /\ creditslevel (playchip_request header149 (list_byte_of_string "chips.dat"))
     = Some 145
  /\ creditslevel (playchip_request header149 (list_byte_of_string "CUSTOM.DAT"))
     = Some 0.
Proof.
  destruct derived_request as (H & _ & _).
  assert (H1 : eq_nocase (list_byte_of_string "chips.dat")
                         (list_byte_of_string "CHIPS.DAT")) by reflexivity.
  assert (H2 : ~ eq_nocase (list_byte_of_string "CUSTOM.DAT")
                           (list_byte_of_string "CHIPS.DAT")) by discriminate.
  split; [reflexivity|]. split; [exact H1|]. split; [exact H2|].
  split; [|split].
  - apply (H header149 (list_byte_of_string "chips.dat")). reflexivity.
  - apply (H header149 (list_byte_of_string "chips.dat")), H1.
  - apply (H header149 (list_byte_of_string "CUSTOM.DAT")), H2.
Defined.

(** ** What the dump reports *)

Lemma word_at_total (d : list byte) (o : Z) :
  0 <= o -> o + 2 <= len d -> exists v, word_at d o = inr v.
Proof.
  intros Ho Hlen. unfold word_at, len in *.
  assert (Hl : length (take 2 (drop (Z.to_nat o) d)) = 2%nat)
    by (rewrite length_take, length_drop; lia).
  destruct (take 2 (drop (Z.to_nat o) d)) as [|lo [|hi [|? ?]]];
    try discriminate Hl.
  eexists. reflexivity.
Qed.

Lemma words_at_total (d : list byte) (offsets : list Z) :
  Forall (fun o => 0 <= o /\ o + 2 <= len d) offsets ->
  exists vs, Forall2 (fun o v => word_at d o = inr v) offsets vs.
Proof.
  induction 1 as [|o offsets [Ho Hlen] _ [vs IH]].
  - exists []. constructor.
  - destruct (word_at_total d o Ho Hlen) as [v Hv].
    exists (v :: vs). constructor; assumption.
Qed.

Lemma drop_overwrite (p n : nat) (s d : list byte) :
  (p + length s <= n)%nat -> (p + length s <= length d)%nat ->
  drop n (overwrite p s d) = drop n d.
Proof.
  intros Hn Hd. unfold overwrite.
  replace (p - length d)%nat with 0%nat by lia. cbn [replicate app].
  rewrite drop_app_ge by (rewrite length_take; lia).
  rewrite drop_app_ge by (rewrite length_take; lia).
  rewrite drop_drop, length_take. f_equal. lia.
Qed.

Lemma report_dom (dat ini heading : str) (e f c : list Z) (dec : bool) :
  dom (report dat ini heading e f c dec)
  = ({["datfile"; "inifile"; "iniheading"; "endlevel"; "fakeendlevel";
       "creditslevel"; "decade"]} : gset string).
Proof.
  unfold report. rewrite !dom_insert_L, dom_empty_L. set_solver.
Qed.

Lemma level_offsets_in (d : list byte) :
  CHIPS_EXE_SIZE <= len d ->
  Forall (fun o => 0 <= o /\ o + 2 <= len d)
         (ENDLEVEL_OFFSETS ++ FAKEENDLEVEL_OFFSETS ++ CREDITSLEVEL_OFFSETS).
Proof.
  intros Hd. unfold CHIPS_EXE_SIZE in Hd.
  repeat first [apply List.Forall_nil | apply List.Forall_cons]; lia.
Qed.

(** An image of the right size always has a dump. *)
Lemma dump_total (d : list byte) :
  checkexe d = inr tt ->
  exists e f c,
    Forall2 (fun o v => word_at d o = inr v) ENDLEVEL_OFFSETS e
    /\ Forall2 (fun o v => word_at d o = inr v) FAKEENDLEVEL_OFFSETS f
    /\ Forall2 (fun o v => word_at d o = inr v) CREDITSLEVEL_OFFSETS c
    /\ dump d =
       inr (report (cstring (Z.to_nat DAT_LENGTH) (drop (Z.to_nat DAT_OFFSET) d))
                   (cstring (Z.to_nat INI_LENGTH) (drop (Z.to_nat INI_OFFSET) d))
                   (cstring (Z.to_nat HEADING_LENGTH)
                            (drop (Z.to_nat HEADING_OFFSET) d))
                   e f c
                   (bool_decide (take 1 (drop (Z.to_nat DECADE_OFFSET) d)
                                 = DECADE_VALUES.2))).
Proof.
  intros Hsize. pose proof (proj1 (checkexe_len d) Hsize) as Hlen.
  pose proof (level_offsets_in d Hlen) as Ho.
  apply Forall_app in Ho as [He Ho]. apply Forall_app in Ho as [Hf Hc].
  destruct (words_at_total d _ He) as [e He'].
  destruct (words_at_total d _ Hf) as [f Hf'].
  destruct (words_at_total d _ Hc) as [c Hc'].
  exists e, f, c. repeat split; try assumption.
  apply dump_report; assumption.
Qed.

Lemma Forall2_word_at (d d' : list byte) (offsets vs : list Z) :
  Forall (fun o => word_at d' o = word_at d o) offsets ->
  Forall2 (fun o v => word_at d o = inr v) offsets vs ->
  Forall2 (fun o v => word_at d' o = inr v) offsets vs.
Proof.
  intros Ho H. induction H as [|o v offsets vs Hv _ IH];
    inversion Ho as [|? ? Ho1 Ho2]; subst; constructor.
  - rewrite Ho1. exact Hv.
  - apply IH, Ho2.
Qed.

(** The dump does not look at the byte of the sound flag. *)
Lemma dump_sound_independent (d : list byte) (b : byte) :
  checkexe d = inr tt ->
  dump (overwrite (Z.to_nat SOUND_OFFSET) [b] d) = dump d.
Proof.
  intros Hsize. pose proof (proj1 (checkexe_len d) Hsize) as Hlen.
  destruct (dump_total d Hsize) as (e & f & c & He & Hf & Hc & Hdump).
  set (d' := overwrite (Z.to_nat SOUND_OFFSET) [b] d).
  assert (Hdrop : forall o, SOUND_OFFSET < o ->
                            drop (Z.to_nat o) d' = drop (Z.to_nat o) d).
  { intros o Ho. apply drop_overwrite; cbn [length];
      unfold SOUND_OFFSET, CHIPS_EXE_SIZE, len in *; lia. }
  assert (Hword : forall o, SOUND_OFFSET < o -> word_at d' o = word_at d o).
  { intros o Ho. unfold word_at. rewrite Hdrop by exact Ho. reflexivity. }
  rewrite Hdump. rewrite (dump_report d' e f c).
  - rewrite !Hdrop by (unfold SOUND_OFFSET, DAT_OFFSET, INI_OFFSET,
                              HEADING_OFFSET, DECADE_OFFSET; lia).
    reflexivity.
  - apply checkexe_len. unfold d', len. rewrite overwrite_length.
    unfold len in Hlen. lia.
  - apply (Forall2_word_at d); [|exact He].
    repeat first [apply List.Forall_nil | apply List.Forall_cons];
      apply Hword; unfold SOUND_OFFSET; lia.
  - apply (Forall2_word_at d); [|exact Hf].
    repeat first [apply List.Forall_nil | apply List.Forall_cons];
      apply Hword; unfold SOUND_OFFSET; lia.
  - apply (Forall2_word_at d); [|exact Hc].
    repeat first [apply List.Forall_nil | apply List.Forall_cons];
      apply Hword; unfold SOUND_OFFSET; lia.
Qed.

(** The image [blank_exe] with the sound flag on. *)
Definition sound_on_exe : list byte :=
  overwrite (Z.to_nat SOUND_OFFSET) [x01] blank_exe.

(** C9 fails as stated: the dump has no entry for the sound flag.  Two
    images of the right size that differ in the byte at 0x2F2F have the same
    dump. *)
Lemma dump_misses_sound :
  checkexe blank_exe = inr tt /\ checkexe sound_on_exe = inr tt
  /\ blank_exe !! Z.to_nat 0x2F2F = Some x00
  /\ sound_on_exe !! Z.to_nat 0x2F2F = Some x01
  /\ dump sound_on_exe = dump blank_exe.
Proof.
  split; [exact blank_exe_checked|].
  split; [vm_compute; reflexivity|].
  split; [vm_compute; reflexivity|].
  split; [vm_compute; reflexivity|].
  apply dump_sound_independent, blank_exe_checked.
Qed.

(** C9, as the code has it.  The dump of an image of the right size has
    seven entries: the three strings, each read from its offset up to a zero
    byte or its maximum length; the three levels, each as the list of the
    signed words at its offsets; and the legacy-message flag, true when its
    byte is the "on" value.  There is no entry for the sound flag, and the
    dump is the same whatever the byte at 0x2F2F. *)
Theorem dump_entries (d : list byte) :
  checkexe d = inr tt ->
  exists e f c,
    Forall2 (fun o v => word_at d o = inr v) ENDLEVEL_OFFSETS e
    /\ Forall2 (fun o v => word_at d o = inr v) FAKEENDLEVEL_OFFSETS f
    /\ Forall2 (fun o v => word_at d o = inr v) CREDITSLEVEL_OFFSETS c
    /\ dump d =
       inr (report (cstring (Z.to_nat DAT_LENGTH) (drop (Z.to_nat DAT_OFFSET) d))
                   (cstring (Z.to_nat INI_LENGTH) (drop (Z.to_nat INI_OFFSET) d))
                   (cstring (Z.to_nat HEADING_LENGTH)
                            (drop (Z.to_nat HEADING_OFFSET) d))
                   e f c
                   (bool_decide (take 1 (drop (Z.to_nat DECADE_OFFSET) d)
                                 = DECADE_VALUES.2)))
    /\ (forall info, dump d = inr info ->
                     dom info
                     = ({["datfile"; "inifile"; "iniheading"; "endlevel";
                          "fakeendlevel"; "creditslevel"; "decade"]}
                        : gset string))
    /\ (forall b, dump (overwrite (Z.to_nat SOUND_OFFSET) [b] d) = dump d).
Proof.
  intros Hsize.
  destruct (dump_total d Hsize) as (e & f & c & He & Hf & Hc & Hdump).
  exists e, f, c.
  split; [exact He|]. split; [exact Hf|]. split; [exact Hc|].
  split; [exact Hdump|]. split.
  - intros info Hinfo. rewrite Hdump in Hinfo. injection Hinfo as <-.
    apply report_dom.
  - intros b. apply dump_sound_independent, Hsize.
Qed.

Lemma dump_entries_witness :
  checkexe stock_exe = inr tt
  /\ exists e f c,
       Forall2 (fun o v => word_at stock_exe o = inr v) ENDLEVEL_OFFSETS e
       /\ Forall2 (fun o v => word_at stock_exe o = inr v) FAKEENDLEVEL_OFFSETS f
       /\ Forall2 (fun o v => word_at stock_exe o = inr v) CREDITSLEVEL_OFFSETS c
       /\ dump stock_exe =
          inr (report (cstring (Z.to_nat DAT_LENGTH)
                               (drop (Z.to_nat DAT_OFFSET) stock_exe))
                      (cstring (Z.to_nat INI_LENGTH)
                               (drop (Z.to_nat INI_OFFSET) stock_exe))
                      (cstring (Z.to_nat HEADING_LENGTH)
                               (drop (Z.to_nat HEADING_OFFSET) stock_exe))
                      e f c
                      (bool_decide (take 1 (drop (Z.to_nat DECADE_OFFSET) stock_exe)
                                    = DECADE_VALUES.2)))
       /\ (forall info, dump stock_exe = inr info ->
                        dom info
                        = ({["datfile"; "inifile"; "iniheading"; "endlevel";
                             "fakeendlevel"; "creditslevel"; "decade"]}
                           : gset string))
       /\ (forall b, dump (overwrite (Z.to_nat SOUND_OFFSET) [b] stock_exe)
                     = dump stock_exe).
Proof.
  split; [exact stock_exe_checked|].
  apply (dump_entries stock_exe), stock_exe_checked.
Defined.

(** ** Fields that are not set *)

(** Case analysis on the optional strings and flags of a request, with the
    bounds on the lengths of the strings that are set. *)
Ltac option_cases a Hv :=
  let H1 := fresh "Hdat" in
  let H2 := fresh "Hini" in
  let H3 := fresh "Hheading" in
  pose proof (valid_dat a _ _ _ Hv) as H1;
  pose proof (valid_ini a _ _ _ Hv) as H2;
  pose proof (valid_heading a _ _ _ Hv) as H3;
  rewrite DAT_LENGTH_eq in H1; rewrite INI_LENGTH_eq in H2;
  rewrite HEADING_LENGTH_eq in H3;
  destruct (datfile a) as [?s|]; [specialize (H1 _ eq_refl)|clear H1];
  (destruct (inifile a) as [?s|]; [specialize (H2 _ eq_refl)|clear H2]);
  (destruct (iniheading a) as [?s|]; [specialize (H3 _ eq_refl)|clear H3]);
  destruct (decade a) as [?b|];
  destruct (soundon a) as [?b|].

Ltac not_patched a Hv :=
  unfold patched, in_string, in_flag, in_words;
  option_cases a Hv; try discriminate;
  cbn [existsb map ENDLEVEL_OFFSETS FAKEENDLEVEL_OFFSETS CREDITSLEVEL_OFFSETS];
  unfold DAT_OFFSET, INI_OFFSET, HEADING_OFFSET, DECADE_OFFSET, SOUND_OFFSET,
         len in *;
  lia.

Section Unset.
Variables (a : PatchRequest) (e f c : Z).
Hypothesis Hv : valid a e f c.

Lemma unset_datfile (i : Z) :
  datfile a = None -> DAT_OFFSET <= i <= DAT_OFFSET + DAT_LENGTH ->
  patched a i = false.
Proof. rewrite DAT_LENGTH_eq. intros Hu Hi. not_patched a Hv. Qed.

Lemma unset_inifile (i : Z) :
  inifile a = None -> INI_OFFSET <= i <= INI_OFFSET + INI_LENGTH ->
  patched a i = false.
Proof. rewrite INI_LENGTH_eq. intros Hu Hi. not_patched a Hv. Qed.

Lemma unset_iniheading (i : Z) :
  iniheading a = None -> HEADING_OFFSET <= i <= HEADING_OFFSET + HEADING_LENGTH ->
  patched a i = false.
Proof. rewrite HEADING_LENGTH_eq. intros Hu Hi. not_patched a Hv. Qed.

Lemma unset_decade : decade a = None -> patched a DECADE_OFFSET = false.
Proof. intros Hu. not_patched a Hv. Qed.

Lemma unset_soundon : soundon a = None -> patched a SOUND_OFFSET = false.
Proof. intros Hu. not_patched a Hv. Qed.
End Unset.

Definition dat_only_request : PatchRequest :=
  {| datfile := Some (list_byte_of_string "A.DAT");
     inifile := None; iniheading := None;
     endlevel := None; fakeendlevel := None; creditslevel := None;
     decade := None; soundon := None |}.

(** C7 fails as stated.  A request that leaves the end level unset is
    refused, whatever else it sets: [1 <= None] is false in Python 2.  And a
    request that sets the end level alone writes the fake end level too,
    with its default: the byte at 0x91B9 changes. *)
Lemma unset_levels_counterexample :
  (endlevel dat_only_request = None
   /\ run (patchexe dat_only_request) blank_exe
      = (blank_exe, inl (ValueError None)))
  /\ (fakeendlevel (endlevel_request 10) = None
      /\ (run (patchexe (endlevel_request 10)) blank_exe).2 = inr tt
      /\ blank_exe !! Z.to_nat 0x91b9 = Some x00
      /\ (run (patchexe (endlevel_request 10)) blank_exe).1 !! Z.to_nat 0x91b9
         = Some x0a).
Proof.
  split.
  - split; [reflexivity|]. apply patchexe_run_invalid. reflexivity.
  - split; [reflexivity|]. split; [|split]; vm_compute; reflexivity.
Qed.

(** C7, as the code has it.  A request that sets the end level, whose
    fields that are set are within their constraints (after the defaults),
    is accepted whatever subset of the other fields it sets; on an image of
    the right size, with a known legacy-message byte when that flag is set,
    the patch returns and keeps the length of the image.  The region of a
    string that is not set, and the byte of a flag that is not set, are as
    they were.  A fake end level that is not set is written as the end
    level, and a credits level that is not set as the fake end level. *)
Theorem optional_fields (a : PatchRequest) (e f c : Z) (exe : list byte) :
  checkexe exe = inr tt ->
  valid a e f c ->
  decade a = None \/ decade_known exe = true ->
  exists exe',
    run (patchexe a) exe = (exe', inr tt)
    /\ length exe' = length exe
    /\ (datfile a = None ->
        forall i, DAT_OFFSET <= i <= DAT_OFFSET + DAT_LENGTH ->
                  exe' !! Z.to_nat i = exe !! Z.to_nat i)
    /\ (inifile a = None ->
        forall i, INI_OFFSET <= i <= INI_OFFSET + INI_LENGTH ->
                  exe' !! Z.to_nat i = exe !! Z.to_nat i)
    /\ (iniheading a = None ->
        forall i, HEADING_OFFSET <= i <= HEADING_OFFSET + HEADING_LENGTH ->
                  exe' !! Z.to_nat i = exe !! Z.to_nat i)
    /\ (decade a = None ->
        exe' !! Z.to_nat DECADE_OFFSET = exe !! Z.to_nat DECADE_OFFSET)
    /\ (soundon a = None ->
        exe' !! Z.to_nat SOUND_OFFSET = exe !! Z.to_nat SOUND_OFFSET)
    /\ (fakeendlevel a = None ->
        f = e /\ Forall (fun o => word_at exe' o = inr e) FAKEENDLEVEL_OFFSETS)
    /\ (creditslevel a = None ->
        c = f /\ Forall (fun o => word_at exe' o = inr f) CREDITSLEVEL_OFFSETS).
Proof.
  intros Hsize Hv Hd.
  pose proof (proj1 (checkexe_len exe) Hsize) as Hlen.
  set (ws := patch_writes a e f c).
  assert (Hws : ws = patch_writes a e f c \/ ws = first_writes a e f c)
    by (left; reflexivity).
  assert (Hframe : forall i, 0 <= i < len exe -> patched a i = false ->
                             apply_writes ws exe !! Z.to_nat i
                             = exe !! Z.to_nat i).
  { intros i Hi Hp. apply apply_writes_lookup_out; [exact Hi|].
    apply not_patched_outside; assumption. }
  assert (Hr : 0 <= e <= 32767 /\ 0 <= f <= 32767 /\ 0 <= c <= 32767).
  { destruct Hv as [_ _ _ _ _ _ ? ? ?]. lia. }
  exists (apply_writes ws exe).
  split; [|split; [|split; [|split; [|split; [|split; [|split; [|split]]]]]]].
  - rewrite (patchexe_run_valid a e f c exe Hv).
    replace (bool_decide (decade a = None) || decade_known exe) with true;
      [reflexivity|].
    destruct Hd as [-> | ->]; [reflexivity|symmetry; apply orb_true_r].
  - apply apply_writes_length.
    eapply Forall_impl; [apply patch_writes_range, Hv|].
    unfold SOUND_OFFSET, DECADE_OFFSET, CHIPS_EXE_SIZE in *.
    intros w Hw. cbn beta in Hw. lia.
  - intros Hu i Hi. apply Hframe; [|apply (unset_datfile a e f c Hv i Hu Hi)].
    rewrite DAT_LENGTH_eq in Hi. unfold DAT_OFFSET, CHIPS_EXE_SIZE in *. lia.
  - intros Hu i Hi. apply Hframe; [|apply (unset_inifile a e f c Hv i Hu Hi)].
    rewrite INI_LENGTH_eq in Hi. unfold INI_OFFSET, CHIPS_EXE_SIZE in *. lia.
  - intros Hu i Hi. apply Hframe; [|apply (unset_iniheading a e f c Hv i Hu Hi)].
    rewrite HEADING_LENGTH_eq in Hi. unfold HEADING_OFFSET, CHIPS_EXE_SIZE in *. lia.
  - intros Hu. apply Hframe; [|apply (unset_decade a e f c Hv Hu)].
    unfold DECADE_OFFSET, CHIPS_EXE_SIZE in *. lia.
  - intros Hu. apply Hframe; [|apply (unset_soundon a e f c Hv Hu)].
    unfold SOUND_OFFSET, CHIPS_EXE_SIZE in *. lia.
  - intros Hu. pose proof (valid_fake a e f c Hv) as Hf.
    rewrite Hu, (valid_end a e f c Hv) in Hf. injection Hf as <-.
    split; [reflexivity|].
    apply Forall_forall. intros o Ho. apply list_elem_of_In in Ho.
    apply word_at_written; [lia|].
    apply (written_fakeendlevel a e e c exe Hv ws Hws o Ho).
  - intros Hu. pose proof (valid_credits a e f c Hv) as Hc.
    rewrite Hu, (valid_fake a e f c Hv) in Hc. injection Hc as <-.
    split; [reflexivity|].
    apply Forall_forall. intros o Ho. apply list_elem_of_In in Ho.
    apply word_at_written; [lia|].
    apply (written_creditslevel a e f f exe Hv ws Hws o Ho).
Qed.

Lemma optional_fields_witness :
  checkexe blank_exe = inr tt
  /\ valid (endlevel_request 10) 10 10 10
  /\ (decade (endlevel_request 10) = None \/ decade_known blank_exe = true)
  /\ exists exe',
       run (patchexe (endlevel_request 10)) blank_exe = (exe', inr tt)
       /\ length exe' = length blank_exe
       /\ (forall i, DAT_OFFSET <= i <= DAT_OFFSET + DAT_LENGTH ->
                     exe' !! Z.to_nat i = blank_exe !! Z.to_nat i)
       /\ exe' !! Z.to_nat DECADE_OFFSET = blank_exe !! Z.to_nat DECADE_OFFSET
       /\ exe' !! Z.to_nat SOUND_OFFSET = blank_exe !! Z.to_nat SOUND_OFFSET
       /\ Forall (fun o => word_at exe' o = inr 10) FAKEENDLEVEL_OFFSETS
       /\ Forall (fun o => word_at exe' o = inr 10) CREDITSLEVEL_OFFSETS.
Proof.
  assert (Hv : valid (endlevel_request 10) 10 10 10)
    by (apply endlevel_request_valid; lia).
  split; [exact blank_exe_checked|]. split; [exact Hv|].
  split; [left; reflexivity|].
  destruct (optional_fields (endlevel_request 10) 10 10 10 blank_exe
              blank_exe_checked Hv (or_introl eq_refl))
    as (exe' & Hrun & Hlen & Hdat & _ & _ & Hdec & Hsnd & Hfake & Hcred).
  exists exe'. split; [exact Hrun|]. split; [exact Hlen|].
  split; [exact (Hdat eq_refl)|]. split; [exact (Hdec eq_refl)|].
  split; [exact (Hsnd eq_refl)|].
  split; [apply (Hfake eq_refl)|apply (Hcred eq_refl)].
Defined.

(** * More of the program *)

(** ** Words *)

Lemma unpack_H_length (s : str) :
  (exists v, unpack_H s = inr v /\ 0 <= v <= 65535) <-> length s = 2%nat.
Proof.
  split.
  - intros (v & Hv & _). destruct s as [|? [|? [|? ?]]]; try discriminate Hv.
    reflexivity.
  - intros Hl. destruct s as [|lo [|hi [|? ?]]]; try discriminate Hl.
    eexists. split; [reflexivity|].
    pose proof (Z_of_byte_range lo). pose proof (Z_of_byte_range hi). lia.
Qed.

Lemma unpack_h_range (s : str) (v : Z) :
  unpack_h s = inr v -> -32768 <= v <= 32767.
Proof.
  unfold unpack_h. destruct (unpack_H s) as [e|u] eqn:Hu; [discriminate|].
  assert (Hr : 0 <= u <= 65535).
  { destruct (proj2 (unpack_H_length s)) as (u' & Hu' & Hr).
    - destruct s as [|? [|? [|? ?]]]; try discriminate Hu. reflexivity.
    - congruence. }
  intros [= <-]. destruct (Z.ltb_spec u 32768); lia.
Qed.

Lemma unpack_h_short (s : str) :
  length s <> 2%nat -> unpack_h s = inl struct_error.
Proof.
  intros Hl. destruct s as [|? [|? [|? ?]]]; try reflexivity.
  contradiction.
Qed.

(** What [readword] does, in one equation. *)
Lemma readword_eq (offset : Z) (signed : bool) (f : file) :
  readword offset signed f
  = let s := take 2 (drop (Z.to_nat offset) (content f)) in
    (File (content f) (offset + len s),
     if signed then unpack_h s else unpack_H s).
Proof.
  unfold readword, mbind, M_bind, bind, seek, read, lift.
  cbn [content position]. cbv zeta.
  destruct signed; destruct (_ (take 2 _)); reflexivity.
Qed.

Lemma unpack_H_short (s : str) :
  length s <> 2%nat -> unpack_H s = inl struct_error.
Proof.
  intros Hl. destruct s as [|? [|? [|? ?]]]; try reflexivity.
  contradiction.
Qed.

(** X1.  [readword] never writes; in either mode it raises [struct.error]
    exactly when fewer than two bytes are left at the offset; otherwise it
    returns, in signed mode (the default), a value in the range of a signed
    16-bit word and, in unsigned mode, one in the range of an unsigned
    16-bit word, the two values being equal modulo 65536. *)
Theorem readword_outcome (offset : Z) (signed : bool) (f : file) :
  0 <= offset ->
  content (readword offset signed f).1 = content f
  /\ ((readword offset signed f).2 = inl struct_error
      <-> len (content f) < offset + 2)
  /\ (offset + 2 <= len (content f) ->
      exists u, (readword offset false f).2 = inr u /\ 0 <= u <= 65535
        /\ exists v, (readword offset true f).2 = inr v
             /\ -32768 <= v <= 32767 /\ v mod 65536 = u
             /\ (readword offset signed f).2 = inr (if signed then v else u)).
Proof.
  intros Ho. rewrite !readword_eq. cbv zeta. cbn [fst snd content].
  set (s := take 2 (drop (Z.to_nat offset) (content f))).
  assert (Hl : length s = Nat.min 2 (length (content f) - Z.to_nat offset))
    by (unfold s; rewrite length_take, length_drop; reflexivity).
  split; [reflexivity|]. split; [split|].
  - intros He. unfold len.
    destruct (decide (length s = 2%nat)) as [H2|H2]; [|lia].
    destruct (proj2 (unpack_H_length s) H2) as (u & Hu & _).
    unfold unpack_h in He. rewrite Hu in He.
    destruct signed; discriminate He.
  - intros Hshort. unfold len in Hshort.
    destruct signed; [apply unpack_h_short|apply unpack_H_short]; lia.
  - intros Hlong. unfold len in Hlong.
    assert (H2 : length s = 2%nat) by lia.
    destruct (proj2 (unpack_H_length s) H2) as (u & Hu & Hr).
    exists u. split; [exact Hu|]. split; [exact Hr|].
    unfold unpack_h. rewrite Hu.
    exists (if u <? 32768 then u else u - 65536).
    split; [reflexivity|].
    split; [destruct (Z.ltb_spec u 32768); lia|].
    split.
    + destruct (Z.ltb_spec u 32768).
      * apply Z.mod_small. lia.
      * replace (u - 65536) with (u + (-1) * 65536) by lia.
        rewrite Z.mod_add by lia. apply Z.mod_small. lia.
    + destruct signed; reflexivity.
Qed.

Lemma readword_outcome_witness :
  0 <= 1
  /\ (readword 1 true (File [x00; xff; xff] 0)).2 = inr (-1)
  /\ (readword 1 false (File [x00; xff; xff] 0)).2 = inr 65535
  /\ (readword 2 false (File [x00; xff; xff] 0)).2 = inl struct_error
  /\ content (readword 1 false (File [x00; xff; xff] 0)).1 = [x00; xff; xff]
  /\ ((readword 1 false (File [x00; xff; xff] 0)).2 = inl struct_error
      <-> len [x00; xff; xff] < 1 + 2).
Proof.
  pose proof (readword_outcome 1 true (File [x00; xff; xff] 0)) as Ht.
  pose proof (readword_outcome 1 false (File [x00; xff; xff] 0)) as Hf.
  pose proof (readword_outcome 2 false (File [x00; xff; xff] 0)) as Hs.
  destruct Ht as (_ & _ & Ht); [lia|].
  destruct Hf as (Hc & He & Hf); [lia|].
  destruct Hs as (_ & Hs & _); [lia|].
  destruct Ht as (u & _ & _ & v & Hv & _ & _ & Hvt); [vm_compute; discriminate|].
  destruct Hf as (u' & Hu' & _ & v' & _ & _ & _ & Huf); [vm_compute; discriminate|].
  pose proof Hvt as Ev. vm_compute in Ev. injection Ev as <-.
  pose proof Huf as Eu. vm_compute in Eu. injection Eu as <-.
  split; [lia|].
  split; [exact Hvt|].
  split; [exact Huf|].
  split; [apply Hs; vm_compute; reflexivity|].
  split; [exact Hc|exact He].
Defined.

Lemma take_drop_overwrite (p : nat) (s d : list byte) :
  take (length s) (drop p (overwrite p s d)) = s.
Proof.
  apply list_eq. intros j.
  destruct (decide (j < length s)%nat) as [Hj|Hj].
  - rewrite lookup_take_lt, lookup_drop by exact Hj.
    rewrite overwrite_lookup_in by lia. f_equal. lia.
  - rewrite lookup_take_ge by lia. symmetry. apply lookup_ge_None_2. lia.
Qed.

(** X2.  [writeword] then [readword] at the same offset gives the value back,
    for every value of a signed 16-bit word, negative ones too, wherever
    the offset is, past the end of the file included; a value out of that
    range raises [struct.error] before the file is touched. *)
Theorem writeword_readword (value offset : Z) (f : file) :
  0 <= offset ->
  (-32768 <= value <= 32767 ->
   exists f', writeword value offset f = (f', inr tt)
              /\ (readword offset true f').2 = inr value
              /\ len (content f') = Z.max (len (content f)) (offset + 2))
  /\ (value < -32768 \/ 32767 < value ->
      writeword value offset f = (f, inl struct_error)).
Proof.
  intros Ho. unfold writeword, pack_h. split.
  - intros Hv.
    replace (-32768 <=? value) with true by (symmetry; apply Z.leb_le; lia).
    replace (value <=? 32767) with true by (symmetry; apply Z.leb_le; lia).
    cbn [andb lift]. cbv zeta.
    set (s := [byte_of_Z ((value mod 65536) mod 256);
               byte_of_Z ((value mod 65536) / 256)]).
    assert (Hs : unpack_h s = inr value).
    { apply (unpack_h_pack_h value s). unfold pack_h.
      replace (-32768 <=? value) with true by (symmetry; apply Z.leb_le; lia).
      replace (value <=? 32767) with true by (symmetry; apply Z.leb_le; lia). reflexivity. }
    eexists. split; [reflexivity|]. split.
    + rewrite readword_eq. cbv zeta. cbn [snd content position].
      rewrite (take_drop_overwrite (Z.to_nat offset) s). exact Hs.
    + cbn [content position]. unfold len. rewrite overwrite_length.
      subst s. cbn [length]. lia.
  - intros Hv.
    destruct (Z.leb_spec (-32768) value); [|reflexivity].
    destruct (Z.leb_spec value 32767); [lia|reflexivity].
Qed.

Lemma writeword_readword_witness :
  0 <= 5
  /\ (exists f', writeword (-2) 5 (File [x01] 0) = (f', inr tt)
                 /\ (readword 5 true f').2 = inr (-2)
                 /\ len (content f') = Z.max (len [x01]) (5 + 2))
  /\ writeword 40000 5 (File [x01] 0) = (File [x01] 0, inl struct_error).
Proof.
  split; [lia|].
  split.
  - apply (writeword_readword (-2) 5 (File [x01] 0)); lia.
  - apply (writeword_readword 40000 5 (File [x01] 0)); lia.
Defined.

(** ** Strings *)

Lemma cstring_spec (n : nat) (l : list byte) :
  (length (cstring n l) <= n)%nat
  /\ (x00 ∉ cstring n l)
  /\ take (length (cstring n l)) l = cstring n l
  /\ (length (cstring n l) = n
      \/ take 1 (drop (length (cstring n l)) l) = []
      \/ take 1 (drop (length (cstring n l)) l) = [x00]).
Proof.
  revert l. induction n as [|n IH]; intros l.
  - cbn [cstring length]. repeat split; auto using not_elem_of_nil.
  - destruct l as [|b l].
    + cbn [cstring length]. repeat split; auto using not_elem_of_nil; lia.
    + cbn [cstring]. destruct (decide (b = x00)) as [->|Hb].
      * rewrite bool_decide_eq_true_2 by reflexivity. cbn [length].
        repeat split; auto using not_elem_of_nil; lia.
      * rewrite bool_decide_eq_false_2 by exact Hb.
        destruct (IH l) as (H1 & H2 & H3 & H4). cbn [length].
        split; [lia|]. split; [|split].
        -- apply not_elem_of_cons. split; [congruence|exact H2].
        -- cbn [take]. f_equal. exact H3.
        -- destruct H4 as [H4|H4]; [left; lia|right; exact H4].
Qed.

(** X3.  [readstring] never writes and never raises.  What it returns is at
    most [maxlen] bytes long, holds no zero byte, is what the file holds
    from the offset on, and ends where it does because [maxlen] bytes were
    read, or the file ends, or the next byte is zero. *)
Theorem readstring_result (offset maxlen : Z) (f : file) :
  0 <= offset ->
  exists s,
    (readstring offset maxlen f).2 = inr s
    /\ content (readstring offset maxlen f).1 = content f
    /\ len s <= Z.max 0 maxlen
    /\ (x00 ∉ s)
    /\ take (length s) (drop (Z.to_nat offset) (content f)) = s
    /\ (len s = Z.max 0 maxlen
        \/ take 1 (drop (Z.to_nat (offset + len s)) (content f)) = []
        \/ take 1 (drop (Z.to_nat (offset + len s)) (content f)) = [x00]).
Proof.
  intros Ho. destruct f as [d pos].
  destruct (readstring_returns offset maxlen d Ho pos) as [pos' Hr].
  rewrite Hr. cbn [fst snd content].
  set (l := drop (Z.to_nat offset) d).
  destruct (cstring_spec (Z.to_nat maxlen) l) as (H1 & H2 & H3 & H4).
  exists (cstring (Z.to_nat maxlen) l).
  split; [reflexivity|]. split; [reflexivity|].
  unfold len. split; [lia|]. split; [exact H2|]. split; [exact H3|].
  replace (Z.to_nat (offset + Z.of_nat (length (cstring (Z.to_nat maxlen) l))))
    with (Z.to_nat offset + length (cstring (Z.to_nat maxlen) l))%nat by lia.
  rewrite <- drop_drop. fold l.
  destruct H4 as [H4|H4]; [left; lia|right; exact H4].
Qed.

Lemma readstring_result_witness :
  0 <= 1
  /\ exists s,
       (readstring 1 2 (File [x41; x42; x43; x44] 0)).2 = inr s
       /\ content (readstring 1 2 (File [x41; x42; x43; x44] 0)).1
          = [x41; x42; x43; x44]
       /\ len s <= Z.max 0 2
       /\ (x00 ∉ s)
       /\ take (length s) (drop (Z.to_nat 1) [x41; x42; x43; x44]) = s
       /\ (len s = Z.max 0 2
           \/ take 1 (drop (Z.to_nat (1 + len s)) [x41; x42; x43; x44]) = []
           \/ take 1 (drop (Z.to_nat (1 + len s)) [x41; x42; x43; x44]) = [x00]).
Proof.
  split; [lia|].
  apply (readstring_result 1 2 (File [x41; x42; x43; x44] 0)). lia.
Defined.

(** X4.  [writestring] then [readstring] at the same offset gives the string
    back, when it holds no zero byte and fits [maxlen], wherever the offset
    is and whatever the file held. *)
Theorem writestring_readstring (value : str) (offset maxlen : Z) (f : file) :
  0 <= offset -> x00 ∉ value -> len value <= maxlen ->
  exists f', writestring value offset f = (f', inr tt)
             /\ (readstring offset maxlen f').2 = inr value.
Proof.
  intros Ho Hz Hlen.
  destruct (exec_writestring value offset f) as [pos Hw].
  eexists. split; [exact Hw|].
  set (ws := [(offset, value); (offset + len value, [x00])]) in *.
  destruct (readstring_returns offset maxlen (apply_writes ws (content f)) Ho pos)
    as [pos' Hr].
  rewrite Hr. cbn [snd]. f_equal.
  apply cstring_in_place; [exact Ho|exact Hz|exact Hlen| |].
  - apply apply_writes_segment; [exact Ho|left; reflexivity|].
    intros i Hi. subst ws.
    repeat first [apply List.Forall_nil | apply List.Forall_cons].
    + right; reflexivity.
    + left. unfold outside. cbn [fst snd]. unfold len in *. lia.
  - apply (apply_writes_segment ws (offset + len value) [x00]);
      [unfold len; lia|right; left; reflexivity|].
    intros i Hi. change (len [x00]) with 1 in Hi. subst ws.
    repeat first [apply List.Forall_nil | apply List.Forall_cons].
    + left. unfold outside. cbn [fst snd]. unfold len in *. lia.
    + right; reflexivity.
Qed.

Lemma writestring_readstring_witness :
  0 <= 3 /\ (x00 ∉ [x41; x42]) /\ len [x41; x42] <= 2
  /\ exists f', writestring [x41; x42] 3 (File [x01] 0) = (f', inr tt)
                /\ (readstring 3 2 f').2 = inr [x41; x42].
Proof.
  assert (Hz : x00 ∉ [x41; x42])
    by (apply (bool_decide_unpack _); vm_compute; exact I).
  split; [lia|]. split; [exact Hz|]. split; [vm_compute; discriminate|].
  apply (writestring_readstring [x41; x42] 3 2 (File [x01] 0));
    [lia|exact Hz|vm_compute; discriminate].
Defined.

(** ** The legacy-message byte *)

Lemma decade_known_lookup (d : list byte) :
  decade_known d = true
  <-> d !! Z.to_nat DECADE_OFFSET = Some xd1
      \/ d !! Z.to_nat DECADE_OFFSET = Some xd2.
Proof.
  unfold decade_known, in_DECADE_VALUES. rewrite take_1_drop.
  cbn [DECADE_VALUES fst snd].
  destruct (d !! Z.to_nat DECADE_OFFSET) as [b|].
  - destruct (decide (b = xd1)) as [->|H1]; [split; auto|].
    destruct (decide (b = xd2)) as [->|H2]; [split; auto|].
    rewrite !bool_decide_eq_false_2 by congruence.
    split; [discriminate|]. intros [[= ?]|[= ?]]; contradiction.
  - split; [discriminate|]. intros [?|?]; discriminate.
Qed.

(** X5.  [patchdecade] on a file whose byte at 0xBB2B is 0xD1 or 0xD2 returns,
    and [readdecade] then gives the flag back; the file keeps its length and
    all its other bytes.  On any other byte, or when the file ends before
    that offset, it raises [AssertionError] and the content is as it was. *)
Theorem patchdecade_readdecade (enable : bool) (f : file) :
  (content f !! Z.to_nat DECADE_OFFSET = Some xd1
   \/ content f !! Z.to_nat DECADE_OFFSET = Some xd2 ->
   exists f', patchdecade enable f = (f', inr tt)
              /\ (readdecade f').2 = inr enable
              /\ length (content f') = length (content f)
              /\ forall i, i <> Z.to_nat DECADE_OFFSET ->
                           content f' !! i = content f !! i)
  /\ (content f !! Z.to_nat DECADE_OFFSET <> Some xd1 ->
      content f !! Z.to_nat DECADE_OFFSET <> Some xd2 ->
      (patchdecade enable f).2 = inl AssertionError
      /\ content (patchdecade enable f).1 = content f).
Proof.
  destruct f as [d pos]. cbn [content]. split.
  - intros Hk. pose proof (proj2 (decade_known_lookup d) Hk) as Hknown.
    destruct (patchdecade_exec enable d pos Hknown) as [pos' Hp].
    cbn [content] in Hp. unfold decade_writes in Hp.
    rewrite apply_writes_cons in Hp. cbn [fst snd apply_writes foldl] in Hp.
    assert (Hin : (Z.to_nat DECADE_OFFSET < length d)%nat).
    { apply lookup_lt_is_Some. destruct Hk as [-> | ->]; eauto. }
    eexists. split; [exact Hp|]. cbn [content]. split; [|split].
    + unfold readdecade, mbind, M_bind, bind, seek, read, mret, M_ret, ret.
      cbn [content position snd].
      pose proof (take_drop_overwrite (Z.to_nat DECADE_OFFSET)
                    [if enable then xd2 else xd1] d) as Ht.
      cbn [length] in Ht. rewrite Ht.
      destruct enable; reflexivity.
    + rewrite overwrite_length. cbn [length]. lia.
    + intros i Hi. destruct (decide (i < length d)%nat) as [Hlt|Hge].
      * apply overwrite_lookup_out; [exact Hlt|]. cbn [length]. lia.
      * rewrite (lookup_ge_None_2 d) by lia. apply lookup_ge_None_2.
        rewrite overwrite_length. cbn [length]. lia.
  - intros H1 H2.
    assert (Hknown : decade_known d = false).
    { destruct (decade_known d) eqn:Hk; [|reflexivity].
      apply decade_known_lookup in Hk as [Hk|Hk]; contradiction. }
    destruct (patchdecade_raise enable d pos Hknown) as [pos' Hp].
    rewrite Hp. split; reflexivity.
Qed.

Lemma patchdecade_readdecade_witness :
  (stock_exe !! Z.to_nat DECADE_OFFSET = Some xd1
   /\ exists f', patchdecade true (File stock_exe 0) = (f', inr tt)
                 /\ (readdecade f').2 = inr true
                 /\ length (content f') = length stock_exe
                 /\ forall i, i <> Z.to_nat DECADE_OFFSET ->
                              content f' !! i = stock_exe !! i)
  /\ (blank_exe !! Z.to_nat DECADE_OFFSET <> Some xd1
      /\ blank_exe !! Z.to_nat DECADE_OFFSET <> Some xd2
      /\ (patchdecade true (File blank_exe 0)).2 = inl AssertionError
      /\ content (patchdecade true (File blank_exe 0)).1 = blank_exe).
Proof.
  assert (H1 : stock_exe !! Z.to_nat DECADE_OFFSET = Some xd1)
    by (vm_compute; reflexivity).
  assert (H2 : blank_exe !! Z.to_nat DECADE_OFFSET = Some x00)
    by (vm_compute; reflexivity).
  split.
  - split; [exact H1|].
    apply (patchdecade_readdecade true (File stock_exe 0)). left. exact H1.
  - split; [rewrite H2; discriminate|]. split; [rewrite H2; discriminate|].
    apply (patchdecade_readdecade true (File blank_exe 0));
      cbn [content]; rewrite H2; discriminate.
Defined.

(** ** Patching twice *)

(** What one write makes of the byte at index [i], [prev] being what was
    there: the byte of the write, or the old byte, or a zero where the write
    starts past the old end. *)
Definition step (i : nat) (prev : option byte) (w : Z * str) : option byte :=
  let p := Z.to_nat w.1 in
  if decide (p <= i < p + length w.2)%nat then w.2 !! (i - p)%nat
  else match prev with
       | Some b => Some b
       | None => if decide (i < p)%nat then Some x00 else None
       end.

Lemma overwrite_lookup_step (w : Z * str) (d : list byte) (i : nat) :
  overwrite (Z.to_nat w.1) w.2 d !! i = step i (d !! i) w.
Proof.
  unfold step. cbv zeta. destruct (decide _) as [Hin|Hout].
  - apply overwrite_lookup_in. exact Hin.
  - destruct (d !! i) as [b|] eqn:Hd.
    + rewrite <- Hd. apply overwrite_lookup_out; [|lia].
      apply lookup_lt_is_Some. eauto.
    + apply lookup_ge_None in Hd. destruct (decide _) as [Hgap|Hpast].
      * apply overwrite_lookup_gap. lia.
      * apply lookup_ge_None_2. rewrite overwrite_length. lia.
Qed.

Lemma apply_writes_lookup_fold (ws : list (Z * str)) (d : list byte) (i : nat) :
  apply_writes ws d !! i = foldl (step i) (d !! i) ws.
Proof.
  revert d. induction ws as [|w ws IH]; intros d; [reflexivity|].
  rewrite apply_writes_cons, IH, overwrite_lookup_step. reflexivity.
Qed.

Lemma step_is_Some (i : nat) (w : Z * str) (b : byte) :
  is_Some (step i (Some b) w).
Proof.
  unfold step. cbv zeta. destruct (decide _) as [Hin|Hout]; [|eauto].
  apply lookup_lt_is_Some. lia.
Qed.

Lemma fold_step_None (i : nat) (ws : list (Z * str)) (x : option byte) :
  foldl (step i) x ws = None ->
  x = None /\ forall b, foldl (step i) (Some b) ws = Some b.
Proof.
  revert x. induction ws as [|w ws IH]; intros x Hx.
  - cbn in Hx. subst x. split; [reflexivity|]. intros b. reflexivity.
  - cbn [foldl] in Hx. destruct (IH _ Hx) as [Hw Hall].
    unfold step in Hw. cbv zeta in Hw.
    destruct (decide _) as [Hin|Hout] in Hw.
    + exfalso. apply lookup_ge_None in Hw. lia.
    + destruct x as [b|]; [discriminate|].
      destruct (decide _) in Hw; [discriminate Hw|].
      split; [reflexivity|].
      intros b. cbn [foldl].
      assert (Hb : step i (Some b) w = Some b).
      { unfold step. cbv zeta. destruct (decide _); [contradiction|reflexivity]. }
      rewrite Hb. apply Hall.
Qed.

Lemma fold_step_idempotent (i : nat) (ws : list (Z * str)) (x : option byte) :
  foldl (step i) (foldl (step i) x ws) ws = foldl (step i) x ws.
Proof.
  revert x. induction ws as [|w ws IH]; intros x; [reflexivity|].
  cbn [foldl]. set (y := step i x w).
  destruct (foldl (step i) y ws) as [b|] eqn:Hy.
  - assert (Hb : step i (Some b) w = Some b \/ step i (Some b) w = y).
    { unfold y, step. cbv zeta. destruct (decide _); [right|left]; reflexivity. }
    destruct Hb as [-> | ->]; [|exact Hy].
    rewrite <- Hy at 1. rewrite IH. exact Hy.
  - destruct (fold_step_None i ws y Hy) as [Hnone _].
    assert (Hn : step i None w = y).
    { unfold y, step in *. cbv zeta in *.
      destruct (decide _); [reflexivity|]. destruct x; [discriminate|].
      reflexivity. }
    rewrite Hn. exact Hy.
Qed.

(** A sequence of writes done twice leaves what it leaves done once. *)
Lemma apply_writes_idempotent (ws : list (Z * str)) (d : list byte) :
  apply_writes ws (apply_writes ws d) = apply_writes ws d.
Proof.
  apply list_eq. intros i.
  rewrite (apply_writes_lookup_fold ws (apply_writes ws d)).
  rewrite (apply_writes_lookup_fold ws d). apply fold_step_idempotent.
Qed.

(** X6.  A request that passes the checks and has gone through once goes
    through again on the patched image and leaves it as it is, whatever the
    image was. *)
Theorem patchexe_idempotent (a : PatchRequest) (e f c : Z) (exe : list byte) :
  valid a e f c ->
  decade a = None \/ decade_known exe = true ->
  exists exe',
    run (patchexe a) exe = (exe', inr tt)
    /\ run (patchexe a) exe' = (exe', inr tt).
Proof.
  intros Hv Hd. exists (apply_writes (patch_writes a e f c) exe).
  assert (Hrun : forall d, decade a = None \/ decade_known d = true ->
                           run (patchexe a) d
                           = (apply_writes (patch_writes a e f c) d, inr tt)).
  { intros d Hk. rewrite (patchexe_run_valid a e f c d Hv).
    replace (bool_decide (decade a = None) || decade_known d) with true;
      [reflexivity|].
    destruct Hk as [-> | ->]; [reflexivity|symmetry; apply orb_true_r]. }
  split; [apply Hrun, Hd|].
  rewrite Hrun, apply_writes_idempotent; [reflexivity|].
  destruct (decade a) as [b|] eqn:Hb; [right|left; reflexivity].
  unfold decade_known. rewrite (written_decade a e f c exe b Hv Hb).
  destruct b; reflexivity.
Qed.

Lemma patchexe_idempotent_witness :
  valid sample_request 149 144 145
  /\ (decade sample_request = None \/ decade_known stock_exe = true)
  /\ exists exe',
       run (patchexe sample_request) stock_exe = (exe', inr tt)
       /\ run (patchexe sample_request) exe' = (exe', inr tt).
Proof.
  split; [exact sample_request_valid|].
  split; [right; exact stock_exe_known|].
  apply (patchexe_idempotent sample_request 149 144 145 stock_exe).
  - exact sample_request_valid.
  - right. exact stock_exe_known.
Defined.

(** ** Files that are too short *)

(** X7.  A levelset that starts with the signature and is shorter than six
    bytes raises [struct.error], not [NotALevelset]; the parser raises
    nothing else than these two, and a count it returns is below 65536. *)
Theorem levelset_outcome (d : list byte) :
  match (LevelsetInfo_init (File d 0)).2 with
  | inl NotALevelset => take 2 d <> CHIPSSIG
  | inl struct_error => take 2 d = CHIPSSIG /\ len d < 6
  | inl _ => False
  | inr info => take 2 d = CHIPSSIG /\ 6 <= len d
                /\ sig info = CHIPSSIG /\ 0 <= count info <= 65535
  end.
Proof.
  rewrite LevelsetInfo_init_eq. cbv zeta.
  destruct (decide (take 2 d = CHIPSSIG)) as [Hsig|Hsig].
  - rewrite (bool_decide_eq_true_2 _ Hsig).
    assert (Hl2 : length (take 2 d) = 2%nat) by (rewrite Hsig; reflexivity).
    rewrite length_take in Hl2.
    set (s := take 2 (drop _ d)).
    assert (Hs : length s = Nat.min 2 (length d - 4)).
    { unfold s, len. repeat rewrite ?length_take, ?length_drop. lia. }
    destruct (unpack_H s) as [e|n] eqn:Hu; cbn [snd].
    + pose proof (unpack_H_error _ _ Hu) as ->. split; [exact Hsig|].
      destruct (decide (length s = 2%nat)) as [H2|H2].
      * destruct (proj2 (unpack_H_length s) H2) as (u & Hu' & _).
        congruence.
      * unfold len. lia.
    + assert (H2 : length s = 2%nat /\ 0 <= n <= 65535).
      { clearbody s.
        destruct s as [|lo [|hi [|? ?]]]; try discriminate Hu.
        injection Hu as <-. split; [reflexivity|].
        pose proof (Z_of_byte_range lo). pose proof (Z_of_byte_range hi). lia. }
      destruct H2 as [H2 Hn].
      split; [exact Hsig|]. split; [unfold len; lia|]. split; [exact Hsig|].
      exact Hn.
  - rewrite (bool_decide_eq_false_2 _ Hsig). exact Hsig.
Qed.

(** [raises m d e]: on a file of content [d], whatever the position, [m]
    raises [e] and leaves the content as it is. *)
Definition raises {A} (m : M A) (d : list byte) (e : exn) : Prop :=
  forall pos, exists pos', m (File d pos) = (File d pos', inl e).

Lemma raises_bind {A B} (m : M A) (k : A -> M B) d e :
  raises m d e -> raises (m ≫= k) d e.
Proof.
  intros Hm pos. destruct (Hm pos) as [pos' H]. exists pos'.
  unfold mbind, M_bind, bind. rewrite H. reflexivity.
Qed.

Lemma returns_raises_bind {A B} (m : M A) (k : A -> M B) d x e :
  returns m d x -> raises (k x) d e -> raises (m ≫= k) d e.
Proof.
  intros Hm Hk pos. destruct (Hm pos) as [pos1 H1].
  destruct (Hk pos1) as [pos2 H2]. exists pos2.
  unfold mbind, M_bind, bind. rewrite H1. exact H2.
Qed.

Lemma word_at_cases (d : list byte) (o : Z) :
  (exists v, word_at d o = inr v) \/ word_at d o = inl struct_error.
Proof.
  unfold word_at, unpack_h.
  destruct (unpack_H _) as [e|u] eqn:Hu; [right|left; eauto].
  apply unpack_H_error in Hu as ->. reflexivity.
Qed.

Lemma readword_raises (offset : Z) (d : list byte) :
  word_at d offset = inl struct_error ->
  raises (readword offset true) d struct_error.
Proof.
  unfold word_at. intros Hw pos. rewrite readword_eq. cbv zeta.
  cbn [content]. rewrite Hw. eexists. reflexivity.
Qed.

Lemma comprehension_raises (offsets : list Z) (d : list byte) :
  Exists (fun o => word_at d o = inl struct_error) offsets ->
  raises (comprehension offsets (fun offset => readword offset true)) d
         struct_error.
Proof.
  induction offsets as [|o offsets IH]; intros Hex;
    [inversion Hex|].
  cbn [comprehension].
  destruct (word_at_cases d o) as [[v Hv]|Hfail].
  - eapply returns_raises_bind; [apply readword_returns, Hv|].
    apply raises_bind, IH.
    inversion Hex as [? ? Hhead|? ? Htail]; subst; [congruence|exact Htail].
  - apply raises_bind, readword_raises, Hfail.
Qed.

Lemma word_at_short (d : list byte) (o : Z) :
  0 <= o -> len d < o + 2 -> word_at d o = inl struct_error.
Proof.
  intros Ho Hl. unfold word_at. apply unpack_h_short.
  rewrite length_take, length_drop. unfold len in Hl. lia.
Qed.

(** X8.  [readexe] on its own needs the image to reach the end of the last
    level word at 0xBB1C: on a shorter one it raises [struct.error], on any
    other it returns, and it never writes. *)
Theorem readexe_outcome (d : list byte) :
  (len d < 0xBB1E -> run readexe d = (d, inl struct_error))
  /\ (0xBB1E <= len d -> exists info, run readexe d = (d, inr info)).
Proof.
  split.
  - intros Hshort.
    assert (Hraises : raises readexe d struct_error).
    { unfold readexe.
      eapply returns_raises_bind; [apply returns_open|].
      eapply returns_raises_bind;
        [apply readstring_returns; unfold DAT_OFFSET; lia|].
      eapply returns_raises_bind;
        [apply readstring_returns; unfold INI_OFFSET; lia|].
      eapply returns_raises_bind;
        [apply readstring_returns; unfold HEADING_OFFSET; lia|].
      apply raises_bind, comprehension_raises.
      unfold ENDLEVEL_OFFSETS. do 2 apply Exists_cons_tl. apply Exists_cons_hd.
      apply word_at_short; lia. }
    destruct (Hraises 0) as [pos H]. unfold run. rewrite H. reflexivity.
  - intros Hlong.
    assert (Ho : Forall (fun o => 0 <= o /\ o + 2 <= len d)
                   (ENDLEVEL_OFFSETS ++ FAKEENDLEVEL_OFFSETS
                    ++ CREDITSLEVEL_OFFSETS)).
    { repeat first [apply List.Forall_nil | apply List.Forall_cons]; lia. }
    apply Forall_app in Ho as [He Ho]. apply Forall_app in Ho as [Hf Hc].
    destruct (words_at_total d _ He) as [e He'].
    destruct (words_at_total d _ Hf) as [f Hf'].
    destruct (words_at_total d _ Hc) as [c Hc'].
    eexists. apply returns_run. apply (readexe_returns d e f c); assumption.
Qed.

Lemma readexe_outcome_witness :
  (len [x00; x01] < 0xBB1E /\ run readexe [x00; x01] = ([x00; x01], inl struct_error))
  /\ (0xBB1E <= len stock_exe /\ exists info, run readexe stock_exe = (stock_exe, inr info)).
Proof.
  assert (H1 : len [x00; x01] < 0xBB1E) by (vm_compute; reflexivity).
  assert (H2 : 0xBB1E <= len stock_exe) by (vm_compute; discriminate).
  split.
  - split; [exact H1|]. apply (readexe_outcome [x00; x01]), H1.
  - split; [exact H2|]. apply (readexe_outcome stock_exe), H2.
Defined.

(** X9.  [main] with [-dump] raises [InvalidExe] on an image shorter than 267776
    bytes and prints a dump of any other: past [checkexe], [readexe] cannot
    raise. *)
Theorem dump_outcome (d : list byte) :
  (len d < 267776 -> dump d = inl InvalidExe)
  /\ (267776 <= len d -> exists info, dump d = inr info).
Proof.
  split.
  - intros Hshort. unfold dump, checkexe. cbv zeta.
    replace (len d <? CHIPS_EXE_SIZE) with true; [reflexivity|].
    symmetry. apply Z.ltb_lt. exact Hshort.
  - intros Hlong.
    destruct (dump_total d (proj2 (checkexe_len d) Hlong))
      as (e & f & c & _ & _ & _ & Hdump).
    eauto.
Qed.

Lemma dump_outcome_witness :
  (len (removelast stock_exe) < 267776
   /\ dump (removelast stock_exe) = inl InvalidExe)
  /\ (267776 <= len stock_exe /\ exists info, dump stock_exe = inr info).
Proof.
  assert (H1 : len (removelast stock_exe) < 267776) by (vm_compute; reflexivity).
  assert (H2 : 267776 <= len stock_exe) by (vm_compute; discriminate).
  split.
  - split; [exact H1|]. apply (dump_outcome (removelast stock_exe)), H1.
  - split; [exact H2|]. apply (dump_outcome stock_exe), H2.
Defined.

(** ** The flag bytes *)

(** X10.  After a patch that goes through, the byte at 0x2F2F is 1 or 0 as the
    sound flag asked, and the byte at 0xBB2B is 0xD2 or 0xD1 as the
    legacy-message flag asked. *)
Theorem flags_written (a : PatchRequest) (e f c : Z) (exe : list byte) :
  valid a e f c ->
  decade a = None \/ decade_known exe = true ->
  exists exe',
    run (patchexe a) exe = (exe', inr tt)
    /\ (forall b, soundon a = Some b ->
                  exe' !! Z.to_nat SOUND_OFFSET = Some (if b then x01 else x00))
    /\ (forall b, decade a = Some b ->
                  exe' !! Z.to_nat DECADE_OFFSET = Some (if b then xd2 else xd1)).
Proof.
  intros Hv Hd. exists (apply_writes (patch_writes a e f c) exe).
  split; [|split].
  - rewrite (patchexe_run_valid a e f c exe Hv).
    replace (bool_decide (decade a = None) || decade_known exe) with true;
      [reflexivity|].
    destruct Hd as [-> | ->]; [reflexivity|symmetry; apply orb_true_r].
  - intros b Hb. pose proof (written_soundon a e f c exe b Hv Hb) as Hw.
    rewrite take_1_drop in Hw.
    destruct (_ !! Z.to_nat SOUND_OFFSET); congruence.
  - intros b Hb. pose proof (written_decade a e f c exe b Hv Hb) as Hw.
    rewrite take_1_drop in Hw.
    destruct (_ !! Z.to_nat DECADE_OFFSET); congruence.
Qed.

Lemma flags_written_witness :
  valid sample_request 149 144 145
  /\ (decade sample_request = None \/ decade_known stock_exe = true)
  /\ exists exe',
       run (patchexe sample_request) stock_exe = (exe', inr tt)
       /\ exe' !! Z.to_nat SOUND_OFFSET = Some x01
       /\ exe' !! Z.to_nat DECADE_OFFSET = Some xd2.
Proof.
  split; [exact sample_request_valid|].
  split; [right; exact stock_exe_known|].
  destruct (flags_written sample_request 149 144 145 stock_exe
              sample_request_valid (or_intror stock_exe_known))
    as (exe' & Hrun & Hs & Hd).
  exists exe'. split; [exact Hrun|].
  split; [exact (Hs true eq_refl)|exact (Hd true eq_refl)].
Defined.

(** X11.  [patchexe] does not look at the size of the image.  On a file that ends
    at or before 0xBB2B, a request that passes the checks and sets the
    legacy-message flag always ends in [AssertionError], the strings and
    level words written and the file grown to 0xBB1E bytes if it was
    shorter. *)
Theorem patchexe_short_image (a : PatchRequest) (e f c : Z) (exe : list byte)
    (b : bool) :
  valid a e f c -> decade a = Some b -> len exe <= DECADE_OFFSET ->
  (run (patchexe a) exe).2 = inl AssertionError
  /\ len (run (patchexe a) exe).1 = Z.max (len exe) 0xBB1E
  /\ Forall (fun o => word_at (run (patchexe a) exe).1 o = inr e)
            ENDLEVEL_OFFSETS.
Proof.
  intros Hv Hb Hshort.
  assert (Hk : decade_known exe = false).
  { unfold decade_known. rewrite take_1_drop.
    rewrite lookup_ge_None_2 by (unfold len in Hshort; lia). reflexivity. }
  rewrite (patchexe_run_valid a e f c exe Hv), Hb, Hk.
  rewrite bool_decide_eq_false_2 by discriminate. cbn [orb fst snd].
  set (ws := first_writes a e f c).
  assert (Hws : ws = patch_writes a e f c \/ ws = first_writes a e f c)
    by (right; reflexivity).
  assert (He : 0 <= e <= 32767).
  { destruct Hv as [_ _ _ _ _ _ ? ? ?]. lia. }
  split; [reflexivity|]. split.
  - assert (Hle : len (apply_writes ws exe) <= Z.max (len exe) 0xBB1E).
    { apply apply_writes_len_le; [|lia].
      eapply Forall_impl; [apply first_writes_range, Hv|].
      unfold INI_OFFSET. intros w Hw. cbn beta in Hw. lia. }
    pose proof (apply_writes_length_ge ws exe) as Hge.
    pose proof (written_endlevel a e f c exe Hv ws Hws 0xbb1c
                  ltac:(cbn; auto)) as Hw.
    apply (f_equal length) in Hw.
    rewrite length_take, length_drop in Hw. cbn [word_bytes length] in Hw.
    unfold len in *. lia.
  - apply Forall_forall. intros o Ho. apply list_elem_of_In in Ho.
    apply word_at_written; [exact He|].
    apply (written_endlevel a e f c exe Hv ws Hws o Ho).
Qed.

Lemma patchexe_short_image_witness :
  valid (decade_request true) 1 1 1
  /\ decade (decade_request true) = Some true
  /\ len [] <= DECADE_OFFSET
  /\ (run (patchexe (decade_request true)) []).2 = inl AssertionError
  /\ len (run (patchexe (decade_request true)) []).1 = Z.max (len []) 0xBB1E
  /\ Forall (fun o => word_at (run (patchexe (decade_request true)) []).1 o
                      = inr 1) ENDLEVEL_OFFSETS.
Proof.
  assert (Hv : valid (decade_request true) 1 1 1) by valid_request.
  assert (Hl : len [] <= DECADE_OFFSET) by (vm_compute; discriminate).
  split; [exact Hv|]. split; [reflexivity|]. split; [exact Hl|].
  apply (patchexe_short_image (decade_request true) 1 1 1 [] true Hv eq_refl Hl).
Defined.

(** ** [playchip] *)

(** [playchip(levelset)]: the header is read from the levelset, a file of
    its own, and the executable is patched with the arguments derived from
    it; [setname] is the last component of the path of the levelset.  The
    copy of the levelset beside the executable and the start of the game
    are outside the model. *)
Definition playchip (levelset : list byte) (setname : str) : M unit :=
  fun exe =>
    match (LevelsetInfo_init (File levelset 0)).2 with
    | inl e => (exe, inl e)
    | inr info => patchexe (playchip_request info setname) exe
    end.

Lemma playchip_request_strings_ok (info : LevelsetInfo) (setname : str) :
  strings_ok (playchip_request info setname).
Proof.
  unfold strings_ok, playchip_request. cbn [datfile inifile iniheading].
  split; [intros s Hs; discriminate Hs|]. split.
  - intros s [= <-]. vm_compute. discriminate.
  - intros s [= <-]. rewrite HEADING_LENGTH_eq. unfold len.
    rewrite length_take. change (Z.to_nat 16) with 16%nat. lia.
Qed.

Lemma level_check_None (e f c : Z) :
  level_check (Some e) (Some f) (Some c) = None
  <-> 1 <= e <= 999 /\ 0 <= f <= e /\ (c = 0 \/ (1 <= f /\ f <= c /\ c <= e)).
Proof.
  unfold level_check, py_le, py_eq0. split.
  - repeat match goal with
           | |- context [if negb ?b then _ else _] =>
               let E := fresh "E" in destruct b eqn:E; cbn [negb]
           end; try discriminate; intros _; lia.
  - intros H.
    repeat match goal with
           | |- context [if negb ?b then _ else _] =>
               let E := fresh "E" in destruct b eqn:E; cbn [negb]
           end; try reflexivity; exfalso; lia.
Qed.

Lemma level_check_kind (e f c : option Z) (x : exn) :
  level_check e f c = Some x -> exists v, x = ValueError v.
Proof.
  unfold level_check.
  repeat match goal with
         | |- context [if negb ?b then _ else _] => destruct b; cbn [negb]
         end; intros [= <-]; eauto.
Qed.

(** X12.  The request [playchip] derives never fails a length check: the heading
    is cut to 16 characters.  It passes the checks on the levels exactly
    when the count is between 1 and 999 and, for a levelset named CHIPS.DAT
    up to case, is 149 or 145: with that name the credits level is 145,
    which no other count admits.  Otherwise [patchexe] raises [ValueError]
    and leaves the image as it was. *)
Theorem playchip_request_checks (info : LevelsetInfo) (setname : str) :
  (accepts (playchip_request info setname)
   <-> 1 <= count info <= 999
       /\ (eq_nocase setname (list_byte_of_string "CHIPS.DAT") ->
           count info = 149 \/ count info = 145))
  /\ (~ accepts (playchip_request info setname) ->
      rejects_levels (playchip_request info setname)).
Proof.
  pose proof (patchexe_check_levels _ (playchip_request_strings_ok info setname))
    as Hcheck.
  pose proof (upper_eq_nocase setname (list_byte_of_string "CHIPS.DAT") eq_refl)
    as Hcase.
  split.
  - rewrite accepts_check, Hcheck. unfold playchip_request.
    cbn [endlevel fakeendlevel creditslevel if_None].
    destruct (decide (upper setname = list_byte_of_string "CHIPS.DAT"))
      as [Hu|Hu];
      [rewrite (bool_decide_eq_true_2 _ Hu)
      |rewrite (bool_decide_eq_false_2 _ Hu)];
      (destruct (Z.eqb_spec (count info) 149) as [Hn|Hn]; cbn [if_None];
       rewrite level_check_None).
    + split; [intros H; split; [lia|intros _; lia]|intros [Hr Hc]; lia].
    + split; [intros H; split; [lia|intros _; lia]|intros [Hr Hc]].
      destruct (Hc (proj1 Hcase Hu)); lia.
    + split; [intros H; split; [lia|]|intros [Hr Hc]; lia].
      intros Hc. exfalso. apply Hu, Hcase, Hc.
    + split; [intros H; split; [lia|]|intros [Hr Hc]; lia].
      intros Hc. exfalso. apply Hu, Hcase, Hc.
  - intros Hna.
    destruct (patchexe_check (playchip_request info setname)) as [x|] eqn:Hx.
    + symmetry in Hcheck. destruct (level_check_kind _ _ _ _ Hcheck) as [v ->].
      exact (rejects_levels_check _ v Hx).
    + exfalso. apply Hna, accepts_check, Hx.
Qed.

Lemma playchip_request_checks_witness :
  let chips100 := {| sig := CHIPSSIG; version := [x01; x00]; count := 100 |} in
  eq_nocase (list_byte_of_string "chips.dat") (list_byte_of_string "CHIPS.DAT")
  /\ ~ accepts (playchip_request chips100 (list_byte_of_string "chips.dat"))
  /\ rejects_levels (playchip_request chips100 (list_byte_of_string "chips.dat"))
  /\ accepts (playchip_request chips100 (list_byte_of_string "MYSET.DAT")).
Proof.
  intros chips100.
  assert (Hc : eq_nocase (list_byte_of_string "chips.dat")
                         (list_byte_of_string "CHIPS.DAT")) by reflexivity.
  assert (Hn : ~ eq_nocase (list_byte_of_string "MYSET.DAT")
                           (list_byte_of_string "CHIPS.DAT")) by discriminate.
  destruct (playchip_request_checks chips100 (list_byte_of_string "chips.dat"))
    as [Hiff1 Hrej].
  destruct (playchip_request_checks chips100 (list_byte_of_string "MYSET.DAT"))
    as [Hiff2 _].
  assert (Hna : ~ accepts (playchip_request chips100
                             (list_byte_of_string "chips.dat"))).
  { intros Ha. apply Hiff1 in Ha as [_ Ha]. cbn [count chips100] in Ha.
    destruct (Ha Hc); discriminate. }
  split; [exact Hc|]. split; [exact Hna|]. split; [exact (Hrej Hna)|].
  apply Hiff2. cbn [count chips100]. split; [lia|]. intros H. contradiction.
Defined.

(** X13.  What [playchip] leaves.  When the header parses and the derived request
    passes the checks, on an image whose legacy-message byte is a known one:
    the patch goes through; the configuration-file name is "./chip.ini" and
    the title heading the first 16 characters of the name of the levelset,
    each followed by a zero byte; the end level is the count of the header
    at each of its offsets; the legacy messages are off and the sound is on.
    When the header does not parse, the image is as it was. *)
Theorem playchip_effect (levelset : list byte) (setname : str)
    (exe : list byte) :
  match (LevelsetInfo_init (File levelset 0)).2 with
  | inl e => run (playchip levelset setname) exe = (exe, inl e)
  | inr info =>
      accepts (playchip_request info setname) ->
      decade_known exe = true ->
      exists exe',
        run (playchip levelset setname) exe = (exe', inr tt)
        /\ take (length DEFAULT_INI) (drop (Z.to_nat INI_OFFSET) exe')
           = DEFAULT_INI
        /\ take 1 (drop (Z.to_nat (INI_OFFSET + len DEFAULT_INI)) exe') = [x00]
        /\ take (length (take 16 setname)) (drop (Z.to_nat HEADING_OFFSET) exe')
           = take 16 setname
        /\ take 1 (drop (Z.to_nat (HEADING_OFFSET + len (take 16 setname))) exe')
           = [x00]
        /\ Forall (fun o => word_at exe' o = inr (count info)) ENDLEVEL_OFFSETS
        /\ exe' !! Z.to_nat DECADE_OFFSET = Some xd1
        /\ exe' !! Z.to_nat SOUND_OFFSET = Some x01
  end.
Proof.
  unfold run, playchip.
  destruct (LevelsetInfo_init (File levelset 0)).2 as [x|info] eqn:Hparse;
    [reflexivity|].
  intros Ha Hk. fold (run (patchexe (playchip_request info setname)) exe).
  set (a := playchip_request info setname) in *.
  apply accepts_check, patchexe_check_None in Ha as (e & f & c & Hv).
  assert (He : e = count info).
  { pose proof (valid_end a e f c Hv) as H. cbn in H. congruence. }
  assert (Hr : 0 <= e <= 32767).
  { destruct Hv as [_ _ _ _ _ _ ? ? ?]. lia. }
  set (ws := patch_writes a e f c).
  assert (Hws : ws = patch_writes a e f c \/ ws = first_writes a e f c)
    by (left; reflexivity).
  exists (apply_writes ws exe).
  split; [|split; [|split; [|split; [|split; [|split; [|split]]]]]].
  - rewrite (patchexe_run_valid a e f c exe Hv), Hk, orb_true_r. reflexivity.
  - apply (written_inifile a e f c exe Hv ws Hws DEFAULT_INI). reflexivity.
  - apply (written_inifile a e f c exe Hv ws Hws DEFAULT_INI). reflexivity.
  - apply (written_iniheading a e f c exe Hv ws Hws (take 16 setname)).
    reflexivity.
  - apply (written_iniheading a e f c exe Hv ws Hws (take 16 setname)).
    reflexivity.
  - rewrite <- He. apply Forall_forall. intros o Ho.
    apply list_elem_of_In in Ho. apply word_at_written; [exact Hr|].
    apply (written_endlevel a e f c exe Hv ws Hws o Ho).
  - pose proof (written_decade a e f c exe false Hv eq_refl) as Hw.
    rewrite take_1_drop in Hw. fold ws in Hw.
    destruct (_ !! Z.to_nat DECADE_OFFSET); congruence.
  - pose proof (written_soundon a e f c exe true Hv eq_refl) as Hw.
    rewrite take_1_drop in Hw. fold ws in Hw.
    destruct (_ !! Z.to_nat SOUND_OFFSET); congruence.
Qed.

Lemma playchip_effect_witness :
  exists exe',
    run (playchip [xac; xaa; x01; x00; x95; x00] (list_byte_of_string "CHIPS.DAT"))
        stock_exe = (exe', inr tt)
    /\ take (length DEFAULT_INI) (drop (Z.to_nat INI_OFFSET) exe') = DEFAULT_INI
    /\ Forall (fun o => word_at exe' o = inr 149) ENDLEVEL_OFFSETS
    /\ exe' !! Z.to_nat DECADE_OFFSET = Some xd1
    /\ exe' !! Z.to_nat SOUND_OFFSET = Some x01.
Proof.
  pose proof (playchip_effect [xac; xaa; x01; x00; x95; x00]
                (list_byte_of_string "CHIPS.DAT") stock_exe) as H.
  cbn [LevelsetInfo_init] in H.
  change ((LevelsetInfo_init (File [xac; xaa; x01; x00; x95; x00] 0)).2)
    with (@inr exn _ header149) in H.
  destruct H as (exe' & Hrun & Hini & _ & _ & _ & Hend & Hdec & Hsnd).
  - apply accepts_check. vm_compute. reflexivity.
  - exact stock_exe_known.
  - exists exe'. split; [exact Hrun|]. split; [exact Hini|].
    split; [exact Hend|]. split; [exact Hdec|exact Hsnd].
Defined.
